(** * The modelbox driver registry and loader core (driver.cc)

    A shallow embedding of [src/libmodelbox/base/drivers/driver.cc]:
    the descriptor value object ([DriverDesc]), the process-wide handle
    table ([DriverHandler]), the per-driver factory life cycle
    ([Driver::CreateFactory], [Driver::CloseFactory]), and the registry
    ([Drivers]) with its query surface and its scan cache.

    Conventions.
    - [std::string] is [string]; [operator<] on strings is the byte-wise
      lexicographic order ([String.compare], bytes compared unsigned).
    - A [void*] library handle is a [positive]; the null handle is [None].
    - Reference counters are C [int]s that the code only ever moves by one;
      they are modelled in [Z] (they may become negative).
    - The dynamic loader and the plug-in entry points are an explicit
      environment record; every call to them is recorded in a trace.
    - Dereferencing a null [shared_ptr] is an explicit outcome.
    - The scan cache is the JSON document itself; the file system holds
      documents, and an exception of the JSON library is [None].
    - Locks are not modelled: every method runs alone. Log lines are kept
      only where a claim speaks of them. *)

From Stdlib Require Import ZArith Lia Bool Ascii.
From Stdlib Require OrderedTypeEx.
From stdpp Require Import base option list gmap strings sorting pretty.

Open Scope string_scope.

(** ** Status codes *)

(** Modelled from the spec: modelbox/base/status.h is not among the
    sources. The codes are the ones driver.cc returns, one per kind of
    error of the specification; [STATUS_OK] is [STATUS_SUCCESS], and a
    [Status] is compared with a code by its code alone. *)
Inductive StatusCode :=
  | STATUS_SUCCESS | STATUS_FAULT | STATUS_NOTFOUND | STATUS_INVALID
  | STATUS_BADCONF | STATUS_EXIST | STATUS_NOTSUPPORT.

Definition STATUS_OK := STATUS_SUCCESS.

#[global] Instance StatusCode_eq_dec : EqDecision StatusCode.
Proof. solve_decision. Defined.

Record Status := mkStatus { Code : StatusCode; Errormsg : string }.

#[global] Instance Status_eq_dec : EqDecision Status.
Proof. solve_decision. Defined.

(** [Status] built from a bare code, and [status == code]. *)
Definition StatusOf (c : StatusCode) : Status := mkStatus c "".
Definition status_is (s : Status) (c : StatusCode) : bool := bool_decide (Code s = c).

(** ** DriverDesc *)

Record DriverDesc := mkDriverDesc {
  driver_class_ : string;
  driver_type_ : string;
  driver_name_ : string;
  driver_description_ : string;
  driver_version_ : string;
  driver_file_path_ : string;
  driver_no_delete_ : bool;
  global_ : bool;
  deep_bind_ : bool
}.

#[global] Instance DriverDesc_eq_dec : EqDecision DriverDesc.
Proof. solve_decision. Defined.

(** Modelled from the spec: the member initialisers are in driver.h. A
    freshly constructed descriptor has empty strings and cleared flags. *)
Definition DriverDesc_new : DriverDesc :=
  mkDriverDesc "" "" "" "" "" "" false false false.

Definition SetClass (d : DriverDesc) (v : string) : DriverDesc :=
  mkDriverDesc v (driver_type_ d) (driver_name_ d) (driver_description_ d)
    (driver_version_ d) (driver_file_path_ d) (driver_no_delete_ d)
    (global_ d) (deep_bind_ d).
Definition SetType (d : DriverDesc) (v : string) : DriverDesc :=
  mkDriverDesc (driver_class_ d) v (driver_name_ d) (driver_description_ d)
    (driver_version_ d) (driver_file_path_ d) (driver_no_delete_ d)
    (global_ d) (deep_bind_ d).
Definition SetName (d : DriverDesc) (v : string) : DriverDesc :=
  mkDriverDesc (driver_class_ d) (driver_type_ d) v (driver_description_ d)
    (driver_version_ d) (driver_file_path_ d) (driver_no_delete_ d)
    (global_ d) (deep_bind_ d).
Definition SetDescription (d : DriverDesc) (v : string) : DriverDesc :=
  mkDriverDesc (driver_class_ d) (driver_type_ d) (driver_name_ d) v
    (driver_version_ d) (driver_file_path_ d) (driver_no_delete_ d)
    (global_ d) (deep_bind_ d).
Definition SetFilePath (d : DriverDesc) (v : string) : DriverDesc :=
  mkDriverDesc (driver_class_ d) (driver_type_ d) (driver_name_ d)
    (driver_description_ d) (driver_version_ d) v (driver_no_delete_ d)
    (global_ d) (deep_bind_ d).
Definition SetNodelete (d : DriverDesc) (b : bool) : DriverDesc :=
  mkDriverDesc (driver_class_ d) (driver_type_ d) (driver_name_ d)
    (driver_description_ d) (driver_version_ d) (driver_file_path_ d) b
    (global_ d) (deep_bind_ d).
Definition SetGlobal (d : DriverDesc) (b : bool) : DriverDesc :=
  mkDriverDesc (driver_class_ d) (driver_type_ d) (driver_name_ d)
    (driver_description_ d) (driver_version_ d) (driver_file_path_ d)
    (driver_no_delete_ d) b (deep_bind_ d).
Definition SetDeepBind (d : DriverDesc) (b : bool) : DriverDesc :=
  mkDriverDesc (driver_class_ d) (driver_type_ d) (driver_name_ d)
    (driver_description_ d) (driver_version_ d) (driver_file_path_ d)
    (driver_no_delete_ d) (global_ d) b.
Definition set_version_field (d : DriverDesc) (v : string) : DriverDesc :=
  mkDriverDesc (driver_class_ d) (driver_type_ d) (driver_name_ d)
    (driver_description_ d) v (driver_file_path_ d) (driver_no_delete_ d)
    (global_ d) (deep_bind_ d).

(** *** Version strings *)

Definition split_char : ascii := "."%char.

(** [::isdigit] in the C locale. *)
Definition isdigit (c : ascii) : bool :=
  let n := Ascii.N_of_ascii c in (48 <=? n)%N && (n <=? 57)%N.

(** [std::all_of(s.begin(), s.end(), ::isdigit)]; true on the empty string. *)
Fixpoint all_of_isdigit (s : string) : bool :=
  match s with
  | EmptyString => true
  | String c s' => isdigit c && all_of_isdigit s'
  end.

(** [version.find(split_char) != npos]. *)
Fixpoint find_char (c : ascii) (s : string) : bool :=
  match s with
  | EmptyString => false
  | String a s' => Ascii.eqb a c || find_char c s'
  end.

(** The characters [std::getline] extracts from a non-empty unread part:
    everything before the first delimiter, which is consumed and dropped,
    or everything up to the end of the stream. *)
Fixpoint getline_until (delim : ascii) (s : string) : string * string :=
  match s with
  | EmptyString => (EmptyString, EmptyString)
  | String c s' =>
      if Ascii.eqb c delim then (EmptyString, s')
      else let '(t, r) := getline_until delim s' in (String c t, r)
  end.

(** [std::getline(iss, temp, delim)] on the unread part [iss] of the
    stream: it fails (the loop condition is false) when nothing is left to
    read, and otherwise yields the token and the new unread part. *)
Definition getline (delim : ascii) (iss : string) : option (string * string) :=
  match iss with
  | EmptyString => None
  | _ => Some (getline_until delim iss)
  end.

(** [while (std::getline(iss, temp, split_char)) version_.emplace_back(temp);] *)
Fixpoint getline_loop (fuel : nat) (iss : string) (version_ : list string)
  : list string :=
  match fuel with
  | O => version_
  | S fuel' =>
      match getline split_char iss with
      | None => version_
      | Some (temp, rest) => getline_loop fuel' rest (version_ ++ [temp])
      end
  end.

Definition version_invalid : Status := mkStatus STATUS_BADCONF "version is invalid".

Definition CheckVersion (version : string) : Status :=
  if negb (find_char split_char version) then version_invalid
  else
    let version_ := getline_loop (S (String.length version)) version [] in
    if negb (length version_ =? 3)%nat then version_invalid
    else if forallb all_of_isdigit version_ then StatusOf STATUS_SUCCESS
    else version_invalid.

Definition SetVersion (d : DriverDesc) (version : string) : Status * DriverDesc :=
  match version with
  | EmptyString => (StatusOf STATUS_SUCCESS, d)
  | _ =>
      let status := CheckVersion version in
      if negb (status_is status STATUS_SUCCESS) then (status, d)
      else (StatusOf STATUS_SUCCESS, set_version_field d version)
  end.

(** ** Driver, the handle table and the dynamic loader *)

(** A non-null [void*] returned by [dlopen]. *)
Definition handle := positive.

(** The object a plug-in's [CreateDriverFactory] hands out. *)
Definition DriverFactory := positive.

(** Modelled from the spec: [DriverHandlerInfo] is declared in driver.h,
    which is not among the sources. An entry carries the reference count
    moved by [IncHanderRefcnt] / [DecHanderRefcnt] (the table's
    acquire/release count) and [initialize_count_], the init reference
    count guarded by [initialize_lock_]; both start at 0. *)
Record DriverHandlerInfo := mkInfo {
  handler_refcnt_ : Z;
  initialize_count_ : Z
}.

#[global] Instance DriverHandlerInfo_eq_dec : EqDecision DriverHandlerInfo.
Proof. solve_decision. Defined.

Definition DriverHandlerInfo_new : DriverHandlerInfo := mkInfo 0 0.

Record Driver := mkDriver {
  desc_ : DriverDesc;
  factory_count_ : Z;
  driver_handler_ : option handle;
  factory_ : option DriverFactory;
  is_virtual_ : bool
}.

#[global] Instance Driver_eq_dec : EqDecision Driver.
Proof. solve_decision. Defined.

(** Modelled from the spec: [std::make_shared<Driver>()] with the member
    initialisers of driver.h: a descriptor of its own, a zero factory
    count, no handle and no factory. *)
Definition Driver_new : Driver := mkDriver DriverDesc_new 0 None None false.

Definition GetDriverFile (d : Driver) : string := driver_file_path_ (desc_ d).

Definition SetDriverDesc (d : Driver) (desc : DriverDesc) : Driver :=
  mkDriver desc (factory_count_ d) (driver_handler_ d) (factory_ d) (is_virtual_ d).
Definition SetVirtual (d : Driver) (b : bool) : Driver :=
  mkDriver (desc_ d) (factory_count_ d) (driver_handler_ d) (factory_ d) b.
Definition set_factory_count (d : Driver) (n : Z) : Driver :=
  mkDriver (desc_ d) n (driver_handler_ d) (factory_ d) (is_virtual_ d).
Definition set_driver_handler (d : Driver) (h : option handle) : Driver :=
  mkDriver (desc_ d) (factory_count_ d) h (factory_ d) (is_virtual_ d).
Definition set_factory (d : Driver) (f : option DriverFactory) : Driver :=
  mkDriver (desc_ d) (factory_count_ d) (driver_handler_ d) f (is_virtual_ d).

(** Modelled from the spec: what destroying a [Driver] does to the
    process. [Abort] is not among the sources; it ends the process. *)
Inductive Destruction := Destroyed | Aborted (msg : string).

(** [Driver::~Driver]. *)
Definition Driver_destroy (d : Driver) : Destruction :=
  if negb (factory_count_ d =? 0)%Z
  then Aborted "factory reference count is not zero"
  else Destroyed.

(** The [dlfcn.h] flags (glibc values). *)
Definition RTLD_LAZY : Z := 1.
Definition RTLD_NOW : Z := 2.
Definition RTLD_DEEPBIND : Z := 8.
Definition RTLD_LOCAL : Z := 0.
Definition RTLD_GLOBAL : Z := 256.
Definition RTLD_NODELETE : Z := 4096.

(** [Driver::GetMode] (built where [RTLD_DEEPBIND] is defined). *)
Definition GetMode (no_delete global deep_bind : bool) : Z :=
  let mode := RTLD_NOW in
  let mode := if no_delete then Z.lor mode RTLD_NODELETE else mode in
  let mode := if deep_bind then Z.lor mode RTLD_DEEPBIND else mode in
  if global then Z.lor mode RTLD_GLOBAL else Z.lor mode RTLD_LOCAL.

(** Calls into the loader and into plug-in code, in program order. *)
Inductive Event :=
  | EvDlopen (file : string) (mode : Z)
  | EvDlclose (h : handle)
  | EvDriverInit (h : handle)
  | EvDriverFini (h : handle)
  | EvCreateDriverFactory (h : handle)
  | EvDriverDescription (h : handle)
  | EvLog (msg : string).

#[global] Instance Event_eq_dec : EqDecision Event.
Proof. solve_decision. Defined.

(** The dynamic loader and the plug-ins behind it.
    - [dlopen file mode] is the handle or null;
    - [dlerror] is the message a failed call leaves behind, if any;
    - [sym_DriverInit h] is [None] when [dlsym] finds no [DriverInit],
      and otherwise the status the entry point returns;
    - [sym_DriverFini h] tells whether [DriverFini] is exported;
    - [sym_CreateDriverFactory h] is [None] when the symbol is missing,
      and otherwise the (possibly null) factory the call returns;
    - [sym_DriverDescription h] is the description callback, acting on
      the descriptor it is handed. *)
Record Loader := mkLoader {
  dlopen : string -> Z -> option handle;
  dlerror : option string;
  sym_DriverInit : handle -> option Status;
  sym_DriverFini : handle -> bool;
  sym_CreateDriverFactory : handle -> option (option DriverFactory);
  sym_DriverDescription : handle -> option (DriverDesc -> DriverDesc)
}.

(** The state one [Driver] method runs in: the driver itself, the
    process-wide handle table ([handler->handler_map]), the thread's
    [StatusError] and the trace. *)
Record State := mkState {
  this : Driver;
  handler_map : gmap handle DriverHandlerInfo;
  StatusError : Status;
  trace : list Event
}.

(** A method either runs to its end or dereferences a null pointer. *)
Inductive Outcome (A : Type) :=
  | Done (a : A) (st : State)
  | NullDeref (st : State).
Arguments Done {A} a st.
Arguments NullDeref {A} st.

Definition M (A : Type) : Type := State -> Outcome A.

#[global] Instance M_ret : MRet M := fun A a st => Done a st.
#[global] Instance M_bind : MBind M := fun A B f m st =>
  match m st with
  | Done a st' => f a st'
  | NullDeref st' => NullDeref st'
  end.

Definition get_this : M Driver := fun st => Done (this st) st.
Definition modify_this (f : Driver -> Driver) : M unit := fun st =>
  Done tt (mkState (f (this st)) (handler_map st) (StatusError st) (trace st)).
Definition get_handler_map : M (gmap handle DriverHandlerInfo) :=
  fun st => Done (handler_map st) st.
Definition put_handler_map (m : gmap handle DriverHandlerInfo) : M unit :=
  fun st => Done tt (mkState (this st) m (StatusError st) (trace st)).
Definition set_StatusError (s : Status) : M unit := fun st =>
  Done tt (mkState (this st) (handler_map st) s (trace st)).
Definition emit (e : Event) : M unit := fun st =>
  Done tt (mkState (this st) (handler_map st) (StatusError st) (trace st ++ [e])).
Definition null_deref {A} : M A := fun st => NullDeref st.

(** [DriverHandler::Get]: the entry for the handle, or null. *)
Definition DriverHandler_Get (h : handle) : M (option DriverHandlerInfo) :=
  m ← get_handler_map; mret (m !! h).

(** [DriverHandler::Add]. *)
Definition DriverHandler_Add (h : handle) : M unit :=
  m ← get_handler_map;
  match m !! h with
  | None =>
      let info := DriverHandlerInfo_new in
      put_handler_map
        (<[h := mkInfo (handler_refcnt_ info + 1) (initialize_count_ info)]> m)
  | Some info =>
      put_handler_map
        (<[h := mkInfo (handler_refcnt_ info + 1) (initialize_count_ info)]> m)
  end.

(** [DriverHandler::Remove]: the result of [Get] is used unchecked. *)
Definition DriverHandler_Remove (h : handle) : M Status :=
  m ← get_handler_map;
  match m !! h with
  | None => null_deref
  | Some info =>
      let cnt := (handler_refcnt_ info - 1)%Z in
      put_handler_map (<[h := mkInfo cnt (initialize_count_ info)]> m);;
      (if (cnt =? 0)%Z
       then m' ← get_handler_map; put_handler_map (delete h m')
       else mret tt);;
      mret (StatusOf STATUS_SUCCESS)
  end.

(** [op info->initialize_count_] through the pointer obtained for [h]:
    the new value is stored and returned; a null pointer is dereferenced
    when the table has no entry. *)
Definition step_initialize_count (h : handle) (delta : Z) : M Z :=
  m ← get_handler_map;
  match m !! h with
  | None => null_deref
  | Some info =>
      let n := (initialize_count_ info + delta)%Z in
      put_handler_map (<[h := mkInfo (handler_refcnt_ info) n]> m);;
      mret n
  end.

(** [++factory_count_] and [--factory_count_], yielding the new value. *)
Definition step_factory_count (delta : Z) : M Z :=
  d ← get_this;
  let n := (factory_count_ d + delta)%Z in
  modify_this (fun d => set_factory_count d n);;
  mret n.

Definition dl_errmsg (env : Loader) : string :=
  match dlerror env with Some msg => msg | None => "no error msg" end.

(** [Driver::CloseFactory]. *)
Definition CloseFactory (env : Loader) : M unit :=
  cnt ← step_factory_count (-1);
  if (0 <? cnt)%Z then mret tt
  else
    d ← get_this;
    match driver_handler_ d with
    | None => modify_this (fun d => set_factory d None)
    | Some h =>
        driver_handler_info ← DriverHandler_Get h;
        (if driver_handler_info is None
         then emit (EvLog "close factory failed, get null driver_handler_info")
         else mret tt);;
        let no_delete := driver_no_delete_ (desc_ d) in
        ic ← step_initialize_count h (-1);
        (if (ic =? 0)%Z then
           if negb no_delete then
             (if sym_DriverFini env h then emit (EvDriverFini h) else mret tt);;
             DriverHandler_Remove h;;
             mret tt
           else
             step_initialize_count h 1;;
             mret tt
         else mret tt);;
        modify_this (fun d => set_factory d None);;
        emit (EvDlclose h);;
        modify_this (fun d => set_driver_handler d None)
    end.

(** The [child_factory] handed to the caller: a view of [factory_.get()]
    whose deleter re-enters [CloseFactory]. *)
Definition child_factory : M (option DriverFactory) :=
  d ← get_this; mret (factory_ d).

(** [Driver::CreateFactory]. *)
Definition CreateFactory (env : Loader) : M (option DriverFactory) :=
  cnt ← step_factory_count 1;
  if negb (cnt =? 1)%Z then child_factory
  else
    d ← get_this;
    let no_delete := driver_no_delete_ (desc_ d) in
    let global := global_ (desc_ d) in
    let deep_bind := deep_bind_ (desc_ d) in
    let mode := GetMode no_delete global deep_bind in
    emit (EvDlopen (GetDriverFile d) mode);;
    modify_this (fun d => set_driver_handler d (dlopen env (GetDriverFile d) mode));;
    match dlopen env (GetDriverFile d) mode with
    | None =>
        let err := mkStatus STATUS_INVALID
          ("dlopen " ++ GetDriverFile d ++ " failed, error: " ++ dl_errmsg env) in
        set_StatusError err;;
        emit (EvLog (Errormsg err));;
        CloseFactory env;;
        mret None
    | Some h =>
        DriverHandler_Add h;;
        ic ← step_initialize_count h 1;
        initialized ←
          (if (ic =? 1)%Z then
             match sym_DriverInit env h with
             | None =>
                 step_initialize_count h (-1);;
                 set_StatusError (mkStatus STATUS_INVALID
                   ("failed to dlsym function DriverInit in file: "
                    ++ GetDriverFile d ++ ", error: " ++ dl_errmsg env));;
                 CloseFactory env;;
                 mret false
             | Some init =>
                 emit (EvDriverInit h);;
                 if negb (status_is init STATUS_OK) then
                   step_initialize_count h (-1);;
                   set_StatusError (mkStatus (Code init)
                     ("driver init failed, driver:" ++ GetDriverFile d));;
                   emit (EvLog ("driverInit failed in " ++ GetDriverFile d));;
                   CloseFactory env;;
                   mret false
                 else mret true
             end
           else mret true);
        if negb initialized then mret None
        else
          match sym_CreateDriverFactory env h with
          | None =>
              let err := mkStatus STATUS_INVALID
                ("failed to dlsym function DriverDescription in file: "
                 ++ GetDriverFile d ++ ", error: "
                 ++ match dlerror env with
                    | Some msg => msg
                    | None => "no error msg."
                    end) in
              set_StatusError err;;
              emit (EvLog (Errormsg err));;
              CloseFactory env;;
              mret None
          | Some made =>
              emit (EvCreateDriverFactory h);;
              modify_this (fun d => set_factory d made);;
              match made with
              | None =>
                  let err := mkStatus STATUS_FAULT
                    ("create driver failed, driver:" ++ GetDriverFile d) in
                  set_StatusError err;;
                  emit (EvLog (Errormsg err));;
                  CloseFactory env;;
                  mret None
              | Some _ => child_factory
              end
          end
    end.

(** ** The registry ([Drivers]) *)

Record Drivers := mkDrivers {
  drivers_list_ : list Driver;
  driver_dirs_ : list string;
  last_modify_time_sum_ : Z;
  load_success_info : list string;
  (** a [std::map], listed in key order *)
  load_failed_info : list (string * string)
}.

Definition set_drivers_list (ds : Drivers) (l : list Driver) : Drivers :=
  mkDrivers l (driver_dirs_ ds) (last_modify_time_sum_ ds)
    (load_success_info ds) (load_failed_info ds).

Definition Drivers_new : Drivers := mkDrivers [] [] 0 [] [].

(** The identity test that opens the loop of [Drivers::GetDriver]. *)
Definition same_identity (desc : DriverDesc) (driver_class driver_type driver_name : string)
  : bool :=
  negb (negb (String.eqb (driver_class_ desc) driver_class)
        || negb (String.eqb (driver_type_ desc) driver_type)
        || negb (String.eqb (driver_name_ desc) driver_name)).

(** The loop of [Drivers::GetDriver], with [temp_driver] as it stands
    before the remaining drivers are visited. *)
Fixpoint GetDriver_loop (l : list Driver)
    (driver_class driver_type driver_name driver_version : string)
    (temp_driver : option Driver) : option Driver :=
  match l with
  | [] => temp_driver
  | driver :: l' =>
      let desc := desc_ driver in
      if negb (same_identity desc driver_class driver_type driver_name) then
        GetDriver_loop l' driver_class driver_type driver_name driver_version temp_driver
      else if String.eqb (driver_version_ desc) driver_version then Some driver
      else
        match temp_driver with
        | None =>
            GetDriver_loop l' driver_class driver_type driver_name driver_version
              (Some driver)
        | Some t =>
            if String.ltb (driver_version_ (desc_ t)) (driver_version_ (desc_ driver))
            then GetDriver_loop l' driver_class driver_type driver_name driver_version
                   (Some driver)
            else GetDriver_loop l' driver_class driver_type driver_name driver_version
                   temp_driver
        end
  end.

(** [Drivers::GetDriver]; [None] is the null pointer. *)
Definition GetDriver (ds : Drivers)
    (driver_class driver_type driver_name driver_version : string) : option Driver :=
  GetDriver_loop (drivers_list_ ds) driver_class driver_type driver_name
    driver_version None.

(** [Drivers::DriversContains]. *)
Fixpoint DriversContains (drivers_list : list Driver) (driver : Driver) : bool :=
  let target_desc := desc_ driver in
  match drivers_list with
  | [] => false
  | driver_item :: rest =>
      let desc := desc_ driver_item in
      if negb (String.eqb (driver_class_ desc) (driver_class_ target_desc)) then
        DriversContains rest driver
      else if negb (String.eqb (driver_type_ desc) (driver_type_ target_desc)) then
        DriversContains rest driver
      else if negb (String.eqb (driver_name_ desc) (driver_name_ target_desc)) then
        DriversContains rest driver
      else if negb (String.eqb (driver_description_ desc)
                      (driver_description_ target_desc)) then
        DriversContains rest driver
      else if negb (String.eqb (driver_version_ desc) (driver_version_ target_desc)) then
        DriversContains rest driver
      else true
  end.

(** [Drivers::Add]: the status, the registry afterwards, and the calls
    made to the loader and the plug-in. *)
Definition Add (env : Loader) (file : string) (ds : Drivers)
  : Status * Drivers * list Event :=
  let lazy_local := Z.lor RTLD_LAZY RTLD_LOCAL in
  match dlopen env file lazy_local with
  | None =>
      let errmsg := file ++ " : dlopen failed, "
        ++ match dlerror env with Some m => m | None => "no error msg." end in
      (mkStatus STATUS_INVALID errmsg, ds, [EvDlopen file lazy_local])
  | Some driver_handler =>
      match sym_DriverDescription env driver_handler with
      | None =>
          let errmsg := file ++ " : dlsym DriverDescription failed, "
            ++ match dlerror env with Some m => m | None => "no error msg." end in
          (mkStatus STATUS_NOTSUPPORT errmsg, ds,
           [EvDlopen file lazy_local; EvDlclose driver_handler])
      | Some driver_func =>
          let driver := Driver_new in
          let driver := SetDriverDesc driver (driver_func (desc_ driver)) in
          if DriversContains (drivers_list_ ds) driver then
            (mkStatus STATUS_EXIST (file ++ " : driver is already registered."), ds,
             [EvDlopen file lazy_local; EvDriverDescription driver_handler;
              EvLog ("add driver: " ++ file
                     ++ " failed, it already has the same function library in libraries.");
              EvDlclose driver_handler])
          else
            let driver := SetDriverDesc driver (SetFilePath (desc_ driver) file) in
            let pin :=
              if driver_no_delete_ (desc_ driver) then
                let lazy_local_nodelete := Z.lor lazy_local RTLD_NODELETE in
                EvDlopen file lazy_local_nodelete ::
                match dlopen env file lazy_local_nodelete with
                | Some driver_handler_sec => [EvDlclose driver_handler_sec]
                | None => [EvLog ("dlopen " ++ file ++ " as no delete failed.")]
                end
              else [] in
            (StatusOf STATUS_OK,
             set_drivers_list ds (drivers_list_ ds ++ [driver])%list,
             ([EvDlopen file lazy_local; EvDriverDescription driver_handler]
              ++ pin ++ [EvDlclose driver_handler])%list)
      end
  end.

(** [std::string::operator<], as a relation that a sort can be run with. *)
Definition string_le (a b : string) : Prop := String.leb a b = true.
Definition string_lt (a b : string) : Prop := String.ltb a b = true.

#[global] Instance string_le_dec : RelDecision string_le.
Proof. intros a b. unfold string_le. apply _. Defined.

(** [std::sort(first, last)] on strings. The order is total and
    antisymmetric, so every sorting algorithm returns the same list
    (lemma [sort_is_the_sorted_permutation] below); merge sort stands for
    the library's. *)
Definition sort (l : list string) : list string := merge_sort string_le l.

(** [std::unique(first, last)] followed by the [erase] of the tail: of
    each run of equal neighbours the first element is kept. *)
Fixpoint unique (l : list string) : list string :=
  match l with
  | [] => []
  | x :: l' =>
      match l' with
      | [] => [x]
      | y :: _ => if String.eqb x y then unique l' else x :: unique l'
      end
  end.

(** [Drivers::RemoveSameElements]. *)
Definition RemoveSameElements (driver_list : list string) : list string :=
  unique (sort driver_list).

(** [Drivers::GetAllDriverList]. *)
Definition GetAllDriverList (ds : Drivers) : list Driver := drivers_list_ ds.

(** [Drivers::GetDriverListByClass]. *)
Definition GetDriverListByClass (ds : Drivers) (driver_class : string) : list Driver :=
  List.filter (fun driver => String.eqb (driver_class_ (desc_ driver)) driver_class)
    (drivers_list_ ds).

(** [Drivers::GetDriverClassList]. *)
Definition GetDriverClassList (ds : Drivers) : list string :=
  RemoveSameElements
    (List.map (fun driver => driver_class_ (desc_ driver)) (drivers_list_ ds)).

(** [Drivers::GetDriverTypeList]. *)
Definition GetDriverTypeList (ds : Drivers) (driver_class : string) : list string :=
  RemoveSameElements
    (List.map (fun driver => driver_type_ (desc_ driver))
       (List.filter
          (fun driver => String.eqb (driver_class_ (desc_ driver)) driver_class)
          (drivers_list_ ds))).

(** [Drivers::GetDriverNameList]. *)
Definition GetDriverNameList (ds : Drivers) (driver_class driver_type : string)
  : list string :=
  RemoveSameElements
    (List.map (fun driver => driver_name_ (desc_ driver))
       (List.filter
          (fun driver =>
             String.eqb (driver_class_ (desc_ driver)) driver_class
             && String.eqb (driver_type_ (desc_ driver)) driver_type)
          (drivers_list_ ds))).

(** ** The scan cache *)

(** A JSON document as [nlohmann::json] holds it (no floating-point
    numbers: the cache contains none). An object is kept as the list of
    its members; keys are looked up from the front. *)
#[local] Set Warnings "-register-all".
Inductive json :=
  | JNull
  | JBool (b : bool)
  | JInt (z : Z)
  | JString (s : string)
  | JArray (items : list json)
  | JObject (members : list (string * json)).
#[local] Set Warnings "register-all".

Fixpoint members_find (key : string) (members : list (string * json)) : option json :=
  match members with
  | [] => None
  | (k, v) :: rest => if String.eqb k key then Some v else members_find key rest
  end.

Fixpoint members_set (key : string) (v : json) (members : list (string * json))
  : list (string * json) :=
  match members with
  | [] => [(key, v)]
  | (k, v0) :: rest =>
      if String.eqb k key then (k, v) :: rest else (k, v0) :: members_set key v rest
  end.

(** [j[key] = v] on a document that is null or an object. *)
Definition json_set (key : string) (v : json) (j : json) : json :=
  match j with
  | JObject members => JObject (members_set key v members)
  | _ => JObject [(key, v)]
  end.

(** Reading [j[key]]: the member, null when the object (or a null
    document) has no such member, and an exception ([None]) on any other
    kind of value. Every use below converts the result at once, and null
    converts to nothing, so a missing member ends in an exception too. *)
Definition json_at (key : string) (j : json) : option json :=
  match j with
  | JObject members => Some (default JNull (members_find key members))
  | JNull => Some JNull
  | _ => None
  end.

(** The implicit conversions; [None] is the library's [type_error]. *)
Definition get_string (j : json) : option string :=
  match j with JString s => Some s | _ => None end.
Definition get_bool (j : json) : option bool :=
  match j with JBool b => Some b | _ => None end.
Definition get_int64 (j : json) : option Z :=
  match j with
  | JInt z => Some z
  | JBool b => Some (if b then 1 else 0)%Z
  | _ => None
  end.

(** What a range-for over a document visits. *)
Definition json_items (j : json) : list json :=
  match j with
  | JArray items => items
  | JObject members => List.map snd members
  | JNull => []
  | _ => [j]
  end.

(** [arr.push_back(v)] on an array (or a null document). *)
Definition json_push_back (v : json) (arr : json) : json :=
  match arr with
  | JArray items => JArray (items ++ [v])
  | _ => JArray [v]
  end.

Inductive FileType := S_IFDIR | S_IFLNK | S_IFREG.

#[global] Instance FileType_eq_dec : EqDecision FileType.
Proof. solve_decision. Defined.

(** The fields of [struct stat] the code reads; [st_mtim] is [tv_sec]. *)
Record StatBuf := mkStat { st_mode : FileType; st_mtim : Z }.

(** The file system as the registry sees it.
    - [fs_stat] / [fs_lstat]: the buffer, or [None] when the call fails;
    - [fs_ListFiles dir filter]: the project's directory listing helper;
    - [fs_read path]: the JSON document a readable file holds;
    - [fs_can_write path]: whether the file can be opened for writing;
    - [fs_ctime]: the text [std::ctime] gives for the current time. *)
Record FileSystem := mkFS {
  fs_stat : string -> option StatBuf;
  fs_lstat : string -> option StatBuf;
  fs_ListFiles : string -> string -> Status * list string;
  fs_read : string -> option json;
  fs_can_write : string -> bool;
  fs_ctime : string
}.

(** Modelled from the spec: the two compile-time paths of driver.h, the
    scan cache ("a single file at a compile-time default path") and the
    system linker cache. *)
Definition DEFAULT_SCAN_INFO : string := "/tmp/modelbox-driver-info".
Definition DEFAULT_LD_CACHE : string := "/etc/ld.so.cache".

(** [scan_info_file << dump_json] on an opened file. A file that did
    not exist is there afterwards; the code never reads its mtime. *)
Definition fs_write (fs : FileSystem) (path : string) (doc : json) : FileSystem :=
  mkFS
    (fun p => if String.eqb p path
              then Some (default (mkStat S_IFREG 0) (fs_stat fs p))
              else fs_stat fs p)
    (fs_lstat fs) (fs_ListFiles fs)
    (fun p => if String.eqb p path then Some doc else fs_read fs p)
    (fs_can_write fs) (fs_ctime fs).

(** One pass of the first loop of [Drivers::WriteScanInfo]. *)
Definition dump_driver (driver : Driver) : json :=
  let desc := desc_ driver in
  let dump_driver_json := JNull in
  let dump_driver_json := json_set "class" (JString (driver_class_ desc)) dump_driver_json in
  let dump_driver_json := json_set "type" (JString (driver_type_ desc)) dump_driver_json in
  let dump_driver_json := json_set "name" (JString (driver_name_ desc)) dump_driver_json in
  let dump_driver_json :=
    json_set "description" (JString (driver_description_ desc)) dump_driver_json in
  let dump_driver_json :=
    json_set "version" (JString (driver_version_ desc)) dump_driver_json in
  let dump_driver_json :=
    json_set "file_path" (JString (driver_file_path_ desc)) dump_driver_json in
  let dump_driver_json :=
    json_set "no_delete" (JBool (driver_no_delete_ desc)) dump_driver_json in
  let dump_driver_json := json_set "global" (JBool (global_ desc)) dump_driver_json in
  let dump_driver_json := json_set "deep_bind" (JBool (deep_bind_ desc)) dump_driver_json in
  json_set "load_success" (JBool true) dump_driver_json.

(** One pass of its second loop. *)
Definition dump_failure (fail_info : string * string) : json :=
  let dump_driver_json := JNull in
  let dump_driver_json := json_set "file_path" (JString (fst fail_info)) dump_driver_json in
  let dump_driver_json := json_set "err_msg" (JString (snd fail_info)) dump_driver_json in
  json_set "load_success" (JBool false) dump_driver_json.

(** The document [Drivers::WriteScanInfo] builds. *)
Definition scan_info_document (fs : FileSystem) (check_code : string) (ds : Drivers)
  : json :=
  let dump_json := JNull in
  let dump_json :=
    match fs_stat fs DEFAULT_LD_CACHE with
    | None => json_set "ld_cache_time" (JInt 0) dump_json
    | Some buffer => json_set "ld_cache_time" (JInt (st_mtim buffer)) dump_json
    end in
  let dump_json := json_set "check_code" (JString check_code) dump_json in
  let dump_json := json_set "version_record" (JString (fs_ctime fs)) dump_json in
  let dump_driver_json_arr := JArray [] in
  let dump_driver_json_arr :=
    fold_left (fun arr driver => json_push_back (dump_driver driver) arr)
      (drivers_list_ ds) dump_driver_json_arr in
  let dump_driver_json_arr :=
    fold_left (fun arr fail_info => json_push_back (dump_failure fail_info) arr)
      (load_failed_info ds) dump_driver_json_arr in
  json_set "scan_drivers" dump_driver_json_arr dump_json.

(** [Drivers::WriteScanInfo]. *)
Definition WriteScanInfo (fs : FileSystem) (scan_info_path check_code : string)
    (ds : Drivers) : Status * FileSystem :=
  if negb (fs_can_write fs scan_info_path) then
    (mkStatus STATUS_FAULT ("Open file " ++ scan_info_path ++ " for write failed"), fs)
  else
    (StatusOf STATUS_OK,
     fs_write fs scan_info_path (scan_info_document fs check_code ds)).

(** One pass of the loop of [Drivers::GatherScanInfo] over an element of
    ["scan_drivers"]; [None] when a conversion throws. *)
Definition gather_driver (driver_info : json) (ds : Drivers) : option Drivers :=
  load_success ← json_at "load_success" driver_info ≫= get_bool;
  if negb load_success then Some ds
  else
    let driver := Driver_new in
    let desc := desc_ driver in
    cls ← json_at "class" driver_info ≫= get_string;
    let desc := SetClass desc cls in
    type ← json_at "type" driver_info ≫= get_string;
    let desc := SetType desc type in
    name ← json_at "name" driver_info ≫= get_string;
    let desc := SetName desc name in
    description ← json_at "description" driver_info ≫= get_string;
    let desc := SetDescription desc description in
    version ← json_at "version" driver_info ≫= get_string;
    let desc := snd (SetVersion desc version) in
    file_path ← json_at "file_path" driver_info ≫= get_string;
    let desc := SetFilePath desc file_path in
    no_delete ← json_at "no_delete" driver_info ≫= get_bool;
    let desc := SetNodelete desc no_delete in
    global ← json_at "global" driver_info ≫= get_bool;
    let desc := SetGlobal desc global in
    deep_bind ← json_at "deep_bind" driver_info ≫= get_bool;
    let desc := SetDeepBind desc deep_bind in
    let driver := SetDriverDesc driver desc in
    let tmp_driver := GetDriver ds cls type name version in
    match tmp_driver with
    | None => Some (set_drivers_list ds (drivers_list_ ds ++ [driver])%list)
    | Some _ => Some ds
    end.

Fixpoint gather_loop (driver_json_arr : list json) (ds : Drivers) : option Drivers :=
  match driver_json_arr with
  | [] => Some ds
  | driver_info :: rest => ds' ← gather_driver driver_info ds; gather_loop rest ds'
  end.

(** [Drivers::GatherScanInfo]: [None] when reading the document throws. *)
Definition GatherScanInfo (fs : FileSystem) (scan_path : string) (ds : Drivers)
  : option (Status * Drivers) :=
  match fs_read fs scan_path with
  | None => Some (StatusOf STATUS_FAULT, ds)
  | Some dump_json =>
      driver_json_arr ← json_at "scan_drivers" dump_json;
      ds' ← gather_loop (json_items driver_json_arr) ds;
      Some (StatusOf STATUS_OK, ds')
  end.

(** The loop of [Drivers::FillCheckInfo] over ["scan_drivers"]. *)
Fixpoint fill_file_map (driver_json_arr : list json) (file_map : gset string)
  : option (gset string) :=
  match driver_json_arr with
  | [] => Some file_map
  | driver_info :: rest =>
      file_path ← json_at "file_path" driver_info ≫= get_string;
      if bool_decide (file_path ∈ file_map) then fill_file_map rest file_map
      else fill_file_map rest ({[file_path]} ∪ file_map)
  end.

(** [Drivers::FillCheckInfo]: the three out-parameters, [file_check_node],
    [file_map] (an [unordered_map] whose values are all [true]) and
    [ld_cache_time]; [None] when reading the document throws. *)
Definition FillCheckInfo (fs : FileSystem) (file_map : gset string)
  : option (string * gset string * Z) :=
  dump_json ← fs_read fs DEFAULT_SCAN_INFO;
  file_check_node ← json_at "check_code" dump_json ≫= get_string;
  ld_cache_time ← json_at "ld_cache_time" dump_json ≫= get_int64;
  driver_json_arr ← json_at "scan_drivers" dump_json;
  file_map ← fill_file_map (json_items driver_json_arr) file_map;
  Some (file_check_node, file_map, ld_cache_time).

(** [int64_t] addition, two's complement. *)
Definition wrap_int64 (z : Z) : Z := ((z + 2 ^ 63) mod 2 ^ 64 - 2 ^ 63)%Z.
Definition int64_add (a b : Z) : Z := wrap_int64 (a + b).

Definition S_ISDIR (s : StatBuf) : bool := bool_decide (st_mode s = S_IFDIR).
Definition S_ISLNK (s : StatBuf) : bool := bool_decide (st_mode s = S_IFLNK).

Definition driver_filter : string := "libmodelbox-*.so*".

(** The inner loop of [Drivers::CheckPathAndMagicCode] over the files of
    one directory: the running [check_sum], or [None] for [return false]. *)
Fixpoint check_files (fs : FileSystem) (file_map : gset string)
    (drivers_list : list string) (check_sum : Z) : option Z :=
  match drivers_list with
  | [] => Some check_sum
  | driver_file :: rest =>
      match fs_lstat fs driver_file with
      | None => check_files fs file_map rest check_sum
      | Some buf =>
          if S_ISLNK buf then check_files fs file_map rest check_sum
          else if bool_decide (driver_file ∉ file_map) then None
          else check_files fs file_map rest (int64_add check_sum (st_mtim buf))
      end
  end.

(** Its outer loop over [driver_dirs_]. *)
Fixpoint check_dirs (fs : FileSystem) (file_map : gset string)
    (dirs : list string) (check_sum : Z) : option Z :=
  match dirs with
  | [] => Some check_sum
  | dir :: rest =>
      match fs_lstat fs dir with
      | None => None
      | Some s =>
          if negb (S_ISDIR s) then
            check_dirs fs file_map rest (int64_add check_sum (st_mtim s))
          else
            let '(status, drivers_list) := fs_ListFiles fs dir driver_filter in
            if negb (status_is status STATUS_OK) then None
            else if (length drivers_list =? 0)%nat then
              check_dirs fs file_map rest check_sum
            else
              match check_files fs file_map drivers_list check_sum with
              | None => None
              | Some check_sum' => check_dirs fs file_map rest check_sum'
              end
      end
  end.

Section ScanCacheValidity.

(** The project's key derivation (modelbox/base/crypto, not among the
    sources): any function from the mtime sum to a check code. *)
Variable GenerateKey : Z -> string.

(** [Drivers::CheckPathAndMagicCode]; [None] when [FillCheckInfo] throws. *)
Definition CheckPathAndMagicCode (fs : FileSystem) (ds : Drivers) : option bool :=
  match fs_stat fs DEFAULT_SCAN_INFO with
  | None => Some false
  | Some _ =>
      match fs_stat fs DEFAULT_LD_CACHE with
      | None => Some false
      | Some buffer =>
          '(file_check_node, file_map, ld_cache_time) ← FillCheckInfo fs ∅;
          if negb (ld_cache_time =? st_mtim buffer)%Z then Some false
          else
            match check_dirs fs file_map (driver_dirs_ ds) 0 with
            | None => Some false
            | Some check_sum =>
                let check_code := GenerateKey check_sum in
                if negb (String.eqb file_check_node check_code) then Some false
                else Some true
            end
      end
  end.

End ScanCacheValidity.

(** *** The validity predicate in the words of the specification *)

(** The regular (non-link) files a directory listing yields. *)
Definition regular_files (fs : FileSystem) (files : list string) : list string :=
  List.filter
    (fun f => match fs_lstat fs f with
              | Some buf => negb (S_ISLNK buf)
              | None => false
              end) files.

(** The files matching the glob in one configured directory. *)
Definition files_in_dir (fs : FileSystem) (dir : string) : list string :=
  match fs_lstat fs dir with
  | Some s =>
      if S_ISDIR s then regular_files fs (snd (fs_ListFiles fs dir driver_filter))
      else []
  | None => []
  end.

(** The scanned file set: every regular file matching the glob in the
    configured directories. *)
Definition scanned_files (fs : FileSystem) (dirs : list string) : gset string :=
  list_to_set (flat_map (files_in_dir fs) dirs).

Definition mtime_of (fs : FileSystem) (f : string) : Z :=
  match fs_lstat fs f with Some buf => st_mtim buf | None => 0 end.

(** The mtimes one entry of [driver_dirs_] contributes: its own when it
    is not a directory, those of its scanned files when it is. *)
Definition mtimes_of_dir (fs : FileSystem) (dir : string) : list Z :=
  match fs_lstat fs dir with
  | Some s =>
      if S_ISDIR s then List.map (mtime_of fs) (files_in_dir fs dir)
      else [st_mtim s]
  | None => []
  end.

(** The summed mtimes, as an [int64_t]. *)
Definition summed_mtimes (fs : FileSystem) (dirs : list string) : Z :=
  wrap_int64 (foldr Z.add 0%Z (flat_map (mtimes_of_dir fs) dirs)).

(** Every configured entry can be inspected, and every directory among
    them can be listed. *)
Definition dirs_readable (fs : FileSystem) (dirs : list string) : Prop :=
  Forall (fun dir =>
            ∃ s, fs_lstat fs dir = Some s
                 ∧ (S_ISDIR s = true →
                    Code (fst (fs_ListFiles fs dir driver_filter)) = STATUS_OK))
         dirs.


(** *** Version strings in the words of the specification *)

(** Splitting on a delimiter: one more component than there are
    delimiters, empty components included. *)
Fixpoint split_on (delim : ascii) (s : string) : list string :=
  match s with
  | EmptyString => [EmptyString]
  | String c s' =>
      if Ascii.eqb c delim then EmptyString :: split_on delim s'
      else
        match split_on delim s' with
        | t :: ts => String c t :: ts
        | [] => [String c EmptyString]
        end
  end.

Definition nonempty_digits (s : string) : bool :=
  negb (String.eqb s "") && all_of_isdigit s.

(** "Exactly three non-empty components, each consisting entirely of
    ASCII decimal digits". *)
Definition three_numeric_components (v : string) : bool :=
  match split_on split_char v with
  | [x; y; z] => nonempty_digits x && nonempty_digits y && nonempty_digits z
  | _ => false
  end.

(** *** Vocabulary for the registry's properties *)

Definition version_of (d : Driver) : string := driver_version_ (desc_ d).

(** The descriptor of [d] matches the queried class, type and name. *)
Definition identity_is (c t n : string) (d : Driver) : Prop :=
  driver_class_ (desc_ d) = c ∧ driver_type_ (desc_ d) = t
  ∧ driver_name_ (desc_ d) = n.

(** The (class, type, name, version, description) tuple of a driver. *)
Definition identity_tuple (d : Driver) : string * string * string * string * string :=
  (driver_class_ (desc_ d), driver_type_ (desc_ d), driver_name_ (desc_ d),
   driver_version_ (desc_ d), driver_description_ (desc_ d)).

(** A registered driver with the given identity and nothing loaded. *)
Definition plain_driver (c t n v description : string) : Driver :=
  SetDriverDesc Driver_new (mkDriverDesc c t n description v "" false false false).

(** A registry holding two versions of one driver. *)
Definition two_versions : Drivers :=
  set_drivers_list Drivers_new
    [plain_driver "cpu" "x" "foo" "10.0.0" ""; plain_driver "cpu" "x" "foo" "2.0.0" ""].

(** A registry whose drivers were registered in the order "b", "a", "b"
    of their classes. *)
Definition unordered_classes : Drivers :=
  set_drivers_list Drivers_new
    [plain_driver "b" "t2" "n3" "" ""; plain_driver "a" "t1" "n1" "" "";
     plain_driver "b" "t1" "n2" "" ""].

(** *** A concrete loader for the examples *)

(** The description callback of a plug-in "foo": it fills in an identity
    and, when asked to, the [no_delete] flag. *)
Definition describe_foo (version : string) (no_delete : bool) (desc : DriverDesc)
  : DriverDesc :=
  SetNodelete
    (snd (SetVersion
            (SetDescription (SetName (SetType (SetClass desc "cpu") "x") "foo") "a driver")
            version))
    no_delete.

(** One library, "libmodelbox-foo.so", loaded at handle 1. It exports
    every entry point; [DriverInit] returns [init_status]. *)
Definition foo_loader (init_status : option Status) (no_delete : bool) : Loader :=
  mkLoader
    (fun file _ => if String.eqb file "libmodelbox-foo.so" then Some 1%positive else None)
    (Some "undefined symbol")
    (fun _ => init_status)
    (fun _ => true)
    (fun _ => Some (Some 7%positive))
    (fun _ => Some (describe_foo "1.2.3" no_delete)).

(** A loader whose library lacks [DriverDescription]. *)
Definition bare_loader : Loader :=
  mkLoader (fun _ _ => Some 1%positive) None (fun _ => None) (fun _ => false)
    (fun _ => None) (fun _ => None).

(** *** Vocabulary for the factory life cycle *)

(** The same process state, seen from another driver. *)
Definition with_this (st : State) (d : Driver) : State :=
  mkState d (handler_map st) (StatusError st) (trace st).

(** The load mode [CreateFactory] computes for a driver. *)
Definition mode_of (d : Driver) : Z :=
  GetMode (driver_no_delete_ (desc_ d)) (global_ (desc_ d)) (deep_bind_ (desc_ d)).

(** The entry [DriverHandler::Add] works on: the one in the table, or a
    fresh one. *)
Definition entry_before (st : State) (h : handle) : DriverHandlerInfo :=
  default DriverHandlerInfo_new (handler_map st !! h).

Definition is_DriverInit (e : Event) : bool :=
  match e with EvDriverInit _ => true | _ => false end.
Definition is_DriverFini (e : Event) : bool :=
  match e with EvDriverFini _ => true | _ => false end.

(** The driver "foo" as [Drivers::Add] registers it. *)
Definition foo_driver (no_delete : bool) : Driver :=
  SetDriverDesc Driver_new
    (SetFilePath (describe_foo "1.2.3" no_delete DriverDesc_new) "libmodelbox-foo.so").

(** A process in which nothing is loaded yet. *)
Definition fresh_state (d : Driver) : State :=
  mkState d ∅ (StatusOf STATUS_SUCCESS) [].

(** The process after one successful [CreateFactory] on "foo" registered
    with [no_delete]: the library is open at handle 1 and initialized. *)
Definition active_foo_state : State :=
  mkState
    (mkDriver (desc_ (foo_driver true)) 1 (Some 1%positive) (Some 7%positive) false)
    {[ 1%positive := mkInfo 1 1 ]}
    (StatusOf STATUS_SUCCESS)
    [EvDlopen "libmodelbox-foo.so" 4098; EvDriverInit 1%positive;
     EvCreateDriverFactory 1%positive].

(** *** A stale cache *)

(** A key derivation for the examples: the sum in decimal. *)
Definition decimal_key (check_sum : Z) : string := pretty check_sum.

(** A driver registered from a given file. *)
Definition driver_from (name file : string) : Driver :=
  SetDriverDesc Driver_new
    (SetFilePath (SetName (SetType (SetClass DriverDesc_new "cpu") "x") name) file).

Definition drv_dir : string := "/drv".
Definition lib_a : string := "/drv/libmodelbox-a.so".
Definition lib_b : string := "/drv/libmodelbox-b.so".

(** The registry after scanning [/drv] when it held two libraries,
    [lib_a] with mtime 10 and [lib_b] with mtime 20. *)
Definition scanned_registry : Drivers :=
  mkDrivers [driver_from "a" lib_a; driver_from "b" lib_b] [drv_dir] 30 [lib_a; lib_b] [].

(** The file system at a later start: the cache written by that scan is
    in place and the linker cache is untouched (mtime 50), but [lib_b]
    has been deleted and [lib_a] rebuilt, its mtime now 30. *)
Definition later_fs : FileSystem :=
  mkFS
    (fun p => if String.eqb p DEFAULT_SCAN_INFO then Some (mkStat S_IFREG 60)
              else if String.eqb p DEFAULT_LD_CACHE then Some (mkStat S_IFREG 50)
              else None)
    (fun p => if String.eqb p drv_dir then Some (mkStat S_IFDIR 70)
              else if String.eqb p lib_a then Some (mkStat S_IFREG 30)
              else None)
    (fun dir _ => if String.eqb dir drv_dir then (StatusOf STATUS_OK, [lib_a])
                  else (StatusOf STATUS_NOTFOUND, []))
    (fun p => if String.eqb p DEFAULT_SCAN_INFO
              then Some (JObject
                     [("ld_cache_time", JInt 50);
                      ("check_code", JString (decimal_key 30));
                      ("version_record", JString "Thu Jan  1 00:01:00 1970");
                      ("scan_drivers",
                       JArray [dump_driver (driver_from "a" lib_a);
                               dump_driver (driver_from "b" lib_b)])])
              else None)
    (fun _ => true)
    "Thu Jan  1 00:02:00 1970".

(** *** Vocabulary for the cache round trip *)

(** The (class, type, name) part of a driver's identity. *)
Definition name_triple (d : Driver) : string * string * string :=
  (driver_class_ (desc_ d), driver_type_ (desc_ d), driver_name_ (desc_ d)).


(** Writing the cache and reading it back into an empty registry. *)
Definition round_trip (fs : FileSystem) (check_code : string) (ds : Drivers)
  : option (Status * Drivers) :=
  GatherScanInfo (snd (WriteScanInfo fs DEFAULT_SCAN_INFO check_code ds))
    DEFAULT_SCAN_INFO Drivers_new.

(** What [std::getline] makes of the components: a final empty
    component yields no token. *)
Fixpoint drop_empty_last (components : list string) : list string :=
  match components with
  | [] => []
  | x :: rest =>
      match rest with
      | [] => if String.eqb x "" then [] else [x]
      | _ => x :: drop_empty_last rest
      end
  end.


(** ** Scanning directories *)

Definition set_last_modify_time_sum (ds : Drivers) (sum : Z) : Drivers :=
  mkDrivers (drivers_list_ ds) (driver_dirs_ ds) sum
    (load_success_info ds) (load_failed_info ds).
Definition set_load_success_info (ds : Drivers) (l : list string) : Drivers :=
  mkDrivers (drivers_list_ ds) (driver_dirs_ ds) (last_modify_time_sum_ ds)
    l (load_failed_info ds).
Definition set_load_failed_info (ds : Drivers) (m : list (string * string)) : Drivers :=
  mkDrivers (drivers_list_ ds) (driver_dirs_ ds) (last_modify_time_sum_ ds)
    (load_success_info ds) m.

(** [std::map::emplace(key, value)] on a map listed in key order: a key
    that is present keeps its value. *)
Fixpoint map_emplace (key value : string) (m : list (string * string))
  : list (string * string) :=
  match m with
  | [] => [(key, value)]
  | (k, v) :: rest =>
      if String.eqb k key then (k, v) :: rest
      else if String.ltb key k then (key, value) :: (k, v) :: rest
      else (k, v) :: map_emplace key value rest
  end.

(** What [Drivers::Scan(path, filter)] does with the result of [Add]:
    the path goes to the list of successes or to the map of failures. *)
Definition record_scan_result (file : string) (status : Status) (ds : Drivers)
  : Drivers :=
  if status_is status STATUS_OK then
    set_load_success_info ds (load_success_info ds ++ [file])%list
  else
    set_load_failed_info ds (map_emplace file (Errormsg status) (load_failed_info ds)).

Section Scanning.

Variable env : Loader.
Variable fs : FileSystem.

(** The text [StrError(errno)] gives after a failed [lstat]. *)
Variable StrError_errno : string.

(** The loop of [Drivers::Scan(path, filter)] over the listed files. *)
Fixpoint scan_files (drivers_list : list string) (ds : Drivers)
  : Drivers * list Event :=
  match drivers_list with
  | [] => (ds, [])
  | driver_file :: rest =>
      match fs_lstat fs driver_file with
      | None => scan_files rest ds
      | Some buf =>
          if S_ISLNK buf then scan_files rest ds
          else
            let ds := set_last_modify_time_sum ds
                        (int64_add (last_modify_time_sum_ ds) (st_mtim buf)) in
            let '(result, ds, evs) := Add env driver_file ds in
            let ds := record_scan_result driver_file result ds in
            let '(ds, evs') := scan_files rest ds in
            (ds, (evs ++ evs')%list)
      end
  end.

(** [Drivers::Scan(path, filter)]. *)
Definition Scan_path (path filter : string) (ds : Drivers)
  : Status * Drivers * list Event :=
  match fs_lstat fs path with
  | None =>
      (mkStatus STATUS_FAULT ("lstat " ++ path ++ " failed, errno:" ++ StrError_errno),
       ds, [])
  | Some s =>
      if negb (S_ISDIR s) then
        let ds := set_last_modify_time_sum ds
                    (int64_add (last_modify_time_sum_ ds) (st_mtim s)) in
        let '(status, ds, evs) := Add env path ds in
        (status, record_scan_result path status ds, evs)
      else
        let '(status, drivers_list) := fs_ListFiles fs path filter in
        if negb (status_is status STATUS_OK) then
          (mkStatus (Code status)
             ("list directory:  " ++ path ++ "/" ++ filter ++ " failed, "), ds, [])
        else if (length drivers_list =? 0)%nat then
          (mkStatus STATUS_NOTFOUND "directory is empty", ds, [])
        else
          let '(ds, evs) := scan_files drivers_list ds in
          (StatusOf STATUS_OK, ds, evs)
  end.

(** The loop of [Drivers::InnerScan] over [driver_dirs_]; the status of
    each directory is dropped. *)
Fixpoint scan_dirs (dirs : list string) (ds : Drivers) : Drivers * list Event :=
  match dirs with
  | [] => (ds, [])
  | dir :: rest =>
      let '(_, ds, evs) := Scan_path dir driver_filter ds in
      let '(ds, evs') := scan_dirs rest ds in
      (ds, (evs ++ evs')%list)
  end.

Variable GenerateKey : Z -> string.

(** [Drivers::InnerScan]: the status, the registry of the scanning
    process, the file system with the cache written, and the calls made. *)
Definition InnerScan (ds : Drivers) : Status * Drivers * FileSystem * list Event :=
  let '(ds, evs) := scan_dirs (driver_dirs_ ds) ds in
  let check_code := GenerateKey (last_modify_time_sum_ ds) in
  let '(ret, fs') := WriteScanInfo fs DEFAULT_SCAN_INFO check_code ds in
  if negb (status_is ret STATUS_OK) then
    (mkStatus STATUS_FAULT "write scan info failed", ds, fs', evs)
  else (ret, ds, fs', evs).

End Scanning.

(** The files a registry has on record: those of its drivers and those
    that failed to load. *)
Definition recorded_files (ds : Drivers) : list string :=
  (List.map (fun d => driver_file_path_ (desc_ d)) (drivers_list_ ds)
   ++ List.map fst (load_failed_info ds))%list.

(** ** Running a method several times *)

Fixpoint times (n : nat) (m : M unit) : M unit :=
  match n with
  | O => mret tt
  | S k => m ;; times k m
  end.

(** A call of [CreateFactory] whose result the caller keeps: the deleter
    of the result re-enters [CloseFactory] later, as a call of its own. *)
Definition create (env : Loader) : M unit := CreateFactory env ;; mret tt.

(** ** The MindSpore inference flow unit (mindspore_inference.cc) *)

(** Modelled from the spec: [mindspore::DataType] is part of the
    MindSpore API. The thirteen enumerators the tables name, and any
    other one. *)
Inductive DataType :=
  | kNumberTypeFloat32 | kNumberTypeFloat16 | kNumberTypeFloat64
  | kNumberTypeInt8 | kNumberTypeInt32 | kNumberTypeInt16 | kNumberTypeInt64
  | kNumberTypeUInt8 | kNumberTypeUInt16 | kNumberTypeUInt32 | kNumberTypeUInt64
  | kNumberTypeBool | kObjectTypeString | kTypeOther.

(** [data_type_map[type]]: [operator[]] gives the empty string for a type
    the table does not hold. *)
Definition data_type_map (type : DataType) : string :=
  match type with
  | kNumberTypeFloat32 => "float"
  | kNumberTypeFloat16 => "float16"
  | kNumberTypeFloat64 => "float64"
  | kNumberTypeInt8 => "int8"
  | kNumberTypeInt32 => "int"
  | kNumberTypeInt16 => "int16"
  | kNumberTypeInt64 => "int64"
  | kNumberTypeUInt8 => "uint8"
  | kNumberTypeUInt16 => "uint16"
  | kNumberTypeUInt32 => "uint32"
  | kNumberTypeUInt64 => "uint64"
  | kNumberTypeBool => "bool"
  | kObjectTypeString => "str"
  | kTypeOther => ""
  end.

(** What the check reads of a [mindspore::MSTensor]. *)
Record MSTensor := mkTensor { Name : string; TensorType : DataType }.

(** The loop of [MindSporeInference::CheckMindSporeInfo], run once the
    three sizes are known to agree. *)
Fixpoint check_tensors (tensor_list : list MSTensor) (name_list type_list : list string)
  : Status :=
  match tensor_list, name_list, type_list with
  | tensor :: tensors, name_i :: names, type_i :: types =>
      if negb (String.eqb (Name tensor) name_i) then
        mkStatus STATUS_BADCONF
          ("model input name " ++ Name tensor
           ++ " does not match for config file input name " ++ name_i)
      else if negb (String.eqb (data_type_map (TensorType tensor)) type_i) then
        mkStatus STATUS_BADCONF
          ("model input name " ++ data_type_map (TensorType tensor)
           ++ " does not match for config file input name " ++ type_i)
      else check_tensors tensors names types
  | _, _, _ => StatusOf STATUS_OK
  end.

(** [MindSporeInference::CheckMindSporeInfo]. *)
Definition CheckMindSporeInfo (tensor_list : list MSTensor)
    (name_list type_list : list string) : Status :=
  if negb (length tensor_list =? length name_list)%nat
     || negb (length tensor_list =? length type_list)%nat then
    mkStatus STATUS_BADCONF
      ("model input size " ++ pretty (length tensor_list)
       ++ " does not match for config file input name or type size "
       ++ pretty (length name_list))
  else check_tensors tensor_list name_list type_list.

(** [MindSporeInference::CheckMindSporeIO], over the tensors that
    [model_->GetInputs()] and [model_->GetOutputs()] return.
    [Status::WrapErrormsgs] is defined outside the sources read here and
    stays a parameter of the model. *)
Definition CheckMindSporeIO (WrapErrormsgs : Status -> string)
    (input_tensor output_tensor : list MSTensor)
    (input_name_list output_name_list input_type_list output_type_list : list string)
  : Status :=
  let ret := CheckMindSporeInfo input_tensor input_name_list input_type_list in
  if negb (status_is ret STATUS_OK) then
    mkStatus STATUS_BADCONF ("check ms input failed " ++ WrapErrormsgs ret)
  else
    let ret := CheckMindSporeInfo output_tensor output_name_list output_type_list in
    if negb (status_is ret STATUS_OK) then
      mkStatus STATUS_BADCONF ("check ms output failed " ++ WrapErrormsgs ret)
    else StatusOf STATUS_OK.

(** ** Vocabulary for the scan *)

(** The driver [Drivers::Add] builds for a file before it looks for a
    duplicate: [None] when the file cannot be opened or does not export
    [DriverDescription]. *)
Definition add_candidate (env : Loader) (file : string) : option Driver :=
  match dlopen env file (Z.lor RTLD_LAZY RTLD_LOCAL) with
  | None => None
  | Some driver_handler =>
      match sym_DriverDescription env driver_handler with
      | None => None
      | Some driver_func => Some (SetDriverDesc Driver_new (driver_func DriverDesc_new))
      end
  end.

(** The candidate with the file stamped into its descriptor. *)
Definition stamped (driver : Driver) (file : string) : Driver :=
  SetDriverDesc driver (SetFilePath (desc_ driver) file).

(** A registry that grew out of another by scanning: the directories are
    the same, drivers were only appended, no two drivers share the
    (class, type, name, version, description) tuple if none did before,
    and every file on record is still on record. *)
Definition grew_from (ds ds' : Drivers) : Prop :=
  driver_dirs_ ds' = driver_dirs_ ds
  ∧ (∃ new, drivers_list_ ds' = (drivers_list_ ds ++ new)%list)
  ∧ (NoDup (List.map identity_tuple (drivers_list_ ds)) →
     NoDup (List.map identity_tuple (drivers_list_ ds')))
  ∧ (∀ f, f ∈ recorded_files ds → f ∈ recorded_files ds').
(** * Properties *)

Open Scope list_scope.

(** ** The order on strings *)

Section StringOrder.

Lemma string_compare_refl (a : string) : String.compare a a = Eq.
Proof. by apply OrderedTypeEx.String_as_OT.cmp_eq. Qed.

Lemma string_compare_lt_trans (a b c : string) :
  String.compare a b = Lt → String.compare b c = Lt → String.compare a c = Lt.
Proof.
  intros Hab Hbc.
  apply OrderedTypeEx.String_as_OT.cmp_lt.
  eapply OrderedTypeEx.String_as_OT.lt_trans;
    apply OrderedTypeEx.String_as_OT.cmp_lt; eassumption.
Qed.

Lemma string_ltb_leb (a b : string) : String.ltb a b = negb (String.leb b a).
Proof.
  unfold String.ltb, String.leb. rewrite (String.compare_antisym a b).
  by destruct (String.compare b a).
Qed.

Lemma string_lt_irrefl (a : string) : ¬ string_lt a a.
Proof. unfold string_lt, String.ltb. by rewrite string_compare_refl. Qed.

Lemma string_le_refl (a : string) : string_le a a.
Proof. unfold string_le, String.leb. by rewrite string_compare_refl. Qed.

Lemma string_lt_le (a b : string) : string_lt a b → string_le a b.
Proof.
  unfold string_lt, string_le, String.ltb, String.leb.
  by destruct (String.compare a b).
Qed.

Lemma string_le_cases (a b : string) : string_le a b ↔ string_lt a b ∨ a = b.
Proof.
  unfold string_lt, string_le, String.ltb, String.leb. split.
  - destruct (String.compare a b) eqn:E; intros; try done.
    + right. by apply String.compare_eq_iff.
    + by left.
  - intros [H | ->]; [by destruct (String.compare a b)|].
    by rewrite string_compare_refl.
Qed.

Lemma string_not_lt_le (a b : string) : String.ltb a b = false → string_le b a.
Proof.
  rewrite string_ltb_leb. unfold string_le. by destruct (String.leb b a).
Qed.

Lemma string_lt_trans (a b c : string) : string_lt a b → string_lt b c → string_lt a c.
Proof.
  unfold string_lt, String.ltb. intros Hab Hbc.
  destruct (String.compare a b) eqn:E1; try done.
  destruct (String.compare b c) eqn:E2; try done.
  by rewrite (string_compare_lt_trans a b c).
Qed.

Lemma string_le_lt_trans (a b c : string) : string_le a b → string_lt b c → string_lt a c.
Proof.
  intros [H | ->]%string_le_cases Hbc; [by eapply string_lt_trans|done].
Qed.

Lemma string_lt_le_trans (a b c : string) : string_lt a b → string_le b c → string_lt a c.
Proof.
  intros Hab [H | <-]%string_le_cases; [by eapply string_lt_trans|done].
Qed.

Lemma string_le_trans (a b c : string) : string_le a b → string_le b c → string_le a c.
Proof.
  intros [H | ->]%string_le_cases Hbc; [|done].
  apply string_lt_le. by eapply string_lt_le_trans.
Qed.

Lemma string_le_antisym (a b : string) : string_le a b → string_le b a → a = b.
Proof. apply String.leb_antisym. Qed.

Lemma string_le_total (a b : string) : string_le a b ∨ string_le b a.
Proof. apply String.leb_total. Qed.

#[global] Instance string_le_Transitive : Transitive string_le.
Proof. intros a b c. apply string_le_trans. Qed.
#[global] Instance string_le_Total : Total string_le.
Proof. intros a b. apply string_le_total. Qed.
#[global] Instance string_le_AntiSymm : AntiSymm (=) string_le.
Proof. intros a b. apply string_le_antisym. Qed.
#[global] Instance string_lt_Transitive : Transitive string_lt.
Proof. intros a b c. apply string_lt_trans. Qed.

End StringOrder.

(** ** DriverDesc::SetVersion *)

Section Version.

Lemma getline_until_rest_length (delim : ascii) (s : string) :
  s ≠ "" →
  String.length (snd (getline_until delim s)) < String.length s.
Proof.
  induction s as [|c s IH]; [done|]. intros _. simpl.
  destruct (Ascii.eqb c delim); simpl; [lia|].
  destruct s as [|c' s']; [simpl; lia|].
  specialize (IH ltac:(done)).
  destruct (getline_until delim (String c' s')) as [t r]. simpl in *. lia.
Qed.

(** The fuel [CheckVersion] passes is enough: the loop stops because
    [getline] fails on the exhausted stream, and more fuel changes nothing. *)
Lemma getline_loop_fuel (fuel fuel' : nat) (s : string) (acc : list string) :
  String.length s < fuel → String.length s < fuel' →
  getline_loop fuel s acc = getline_loop fuel' s acc.
Proof.
  revert fuel' s acc. induction fuel as [|fuel IH]; intros fuel' s acc Hf Hf'; [lia|].
  destruct fuel' as [|fuel']; [lia|]. simpl.
  destruct s as [|c s]; [done|]. unfold getline.
  pose proof (getline_until_rest_length split_char (String c s) ltac:(done)) as Hlen.
  destruct (getline_until split_char (String c s)) as [t r]. simpl in Hlen.
  apply IH; simpl in *; lia.
Qed.

Lemma split_on_nonempty (delim : ascii) (s : string) : split_on delim s ≠ [].
Proof.
  destruct s as [|c s]; simpl; [done|].
  destruct (Ascii.eqb c delim); [done|]. by destruct (split_on delim s).
Qed.

Lemma getline_until_no_delim (delim : ascii) (s : string) :
  find_char delim s = false →
  getline_until delim s = (s, "") ∧ split_on delim s = [s].
Proof.
  induction s as [|c s IH]; simpl; [done|].
  destruct (Ascii.eqb c delim); simpl; [done|].
  intros [-> ->]%IH. done.
Qed.

Lemma getline_until_delim (delim : ascii) (s : string) :
  find_char delim s = true →
  split_on delim s
  = fst (getline_until delim s) :: split_on delim (snd (getline_until delim s)).
Proof.
  induction s as [|c s IH]; simpl; [done|].
  destruct (Ascii.eqb c delim); simpl; [done|].
  intros ->%IH. by destruct (getline_until delim s).
Qed.

Lemma drop_empty_last_cons (x : string) (rest : list string) :
  rest ≠ [] → drop_empty_last (x :: rest) = x :: drop_empty_last rest.
Proof. by destruct rest. Qed.

(** The tokens the loop collects are the components of the string, less
    a final empty one. *)
Lemma getline_loop_tokens (fuel : nat) (s : string) (acc : list string) :
  String.length s < fuel →
  getline_loop fuel s acc = acc ++ drop_empty_last (split_on split_char s).
Proof.
  revert s acc. induction fuel as [|fuel IH]; intros s acc Hf; [lia|].
  destruct s as [|c s]; [by rewrite app_nil_r|].
  cbn [getline_loop getline].
  pose proof (getline_until_rest_length split_char (String c s) ltac:(done)) as Hlen.
  destruct (find_char split_char (String c s)) eqn:Hfind.
  - rewrite (getline_until_delim _ _ Hfind).
    destruct (getline_until split_char (String c s)) as [t r]. cbn [fst snd] in *.
    rewrite IH by (simpl in *; lia).
    rewrite drop_empty_last_cons by apply split_on_nonempty.
    by rewrite <- app_assoc.
  - destruct (getline_until_no_delim _ _ Hfind) as [-> ->].
    rewrite IH by (simpl; lia). simpl. by rewrite <- app_assoc.
Qed.

(** What [CheckVersion] accepts: three tokens, each empty or all digits. *)
Lemma CheckVersion_accepts_iff (version : string) :
  Code (CheckVersion version) = STATUS_SUCCESS ↔
  ∃ x y z,
    drop_empty_last (split_on split_char version) = [x; y; z]
    ∧ all_of_isdigit x = true ∧ all_of_isdigit y = true ∧ all_of_isdigit z = true.
Proof.
  unfold CheckVersion.
  rewrite (getline_loop_tokens _ version []) by lia. simpl.
  destruct (find_char split_char version) eqn:Hfind; simpl.
  - destruct (drop_empty_last (split_on split_char version))
      as [|x [|y [|z [|w l]]]]; simpl;
      try (split; [done|by intros (? & ? & ? & [=] & _)]).
    destruct (all_of_isdigit x) eqn:Hx, (all_of_isdigit y) eqn:Hy,
             (all_of_isdigit z) eqn:Hz; simpl;
      (split; [intros H; try done; by exists x, y, z
              |intros (? & ? & ? & [= <- <- <-] & ? & ? & ?); congruence]).
  - destruct (getline_until_no_delim _ _ Hfind) as [_ ->]. simpl.
    split; [done|]. intros (x & y & z & H & _).
    by destruct (String.eqb version "").
Qed.

(** Every string of the claimed shape is accepted: the code errs on the
    side of accepting more. *)
Lemma SetVersion_accepts_three_numeric_components (d : DriverDesc) (version : string) :
  three_numeric_components version = true →
  SetVersion d version = (StatusOf STATUS_SUCCESS, set_version_field d version).
Proof.
  unfold three_numeric_components, nonempty_digits. intros Hshape.
  assert (Hok : Code (CheckVersion version) = STATUS_SUCCESS).
  { apply CheckVersion_accepts_iff.
    destruct (split_on split_char version) as [|x [|y [|z [|w l]]]]; try done.
    apply andb_true_iff in Hshape as [[Hx Hy]%andb_true_iff Hz].
    apply andb_true_iff in Hx as [_ Hx], Hy as [_ Hy], Hz as [Hz0 Hz].
    exists x, y, z. simpl. destruct (String.eqb z ""); done. }
  unfold SetVersion. destruct version as [|c v]; [done|].
  unfold status_is. by rewrite bool_decide_eq_true_2.
Qed.

Lemma SetVersion_empty (d : DriverDesc) :
  SetVersion d "" = (StatusOf STATUS_SUCCESS, d).
Proof. reflexivity. Qed.

Lemma SetVersion_rejects_boundaries (d : DriverDesc) :
  SetVersion d "1.2" = (version_invalid, d)
  ∧ SetVersion d "1.2.3.4" = (version_invalid, d)
  ∧ SetVersion d "1.2.a" = (version_invalid, d).
Proof. repeat split; reflexivity. Qed.

Example SetVersion_1_2_3 :
  SetVersion DriverDesc_new "1.2.3"
  = (StatusOf STATUS_SUCCESS, set_version_field DriverDesc_new "1.2.3").
Proof. reflexivity. Qed.

(** C5. [SetVersion] is claimed to succeed on a non-empty string exactly
    when splitting on '.' gives three non-empty all-digit components. The
    code accepts strings that do not have that shape: an empty component
    passes [std::all_of] vacuously, and [std::getline] yields no token for
    what follows a final '.'. So ["1..2"], ["1.2.3."] and ["..."] are
    stored as versions, although none has three numeric components. *)
Theorem SetVersion_accepts_empty_components (d : DriverDesc) :
  three_numeric_components "1..2" = false
  ∧ SetVersion d "1..2" = (StatusOf STATUS_SUCCESS, set_version_field d "1..2")
  ∧ three_numeric_components "1.2.3." = false
  ∧ SetVersion d "1.2.3." = (StatusOf STATUS_SUCCESS, set_version_field d "1.2.3.")
  ∧ three_numeric_components "..." = false
  ∧ SetVersion d "..." = (StatusOf STATUS_SUCCESS, set_version_field d "...").
Proof. repeat split; reflexivity. Qed.

End Version.

(** ** Driver::~Driver *)

(** C8. Destroying a [Driver] whose factory reference count is not zero
    aborts the process, and destroying one whose count is zero never
    aborts. *)
Theorem Driver_destroy_aborts_iff_leaked (d : Driver) :
  (factory_count_ d ≠ 0%Z →
   Driver_destroy d = Aborted "factory reference count is not zero")
  ∧ (factory_count_ d = 0%Z → Driver_destroy d = Destroyed)
  ∧ ((∃ msg, Driver_destroy d = Aborted msg) ↔ factory_count_ d ≠ 0%Z).
Proof.
  unfold Driver_destroy.
  destruct (Z.eqb_spec (factory_count_ d) 0) as [E|E]; simpl.
  - repeat split; try done. intros [msg H]. done.
  - repeat split; try done. intros _. eauto.
Qed.

Lemma Driver_destroy_aborts_iff_leaked_witness :
  Driver_destroy (set_factory_count Driver_new 2)
    = Aborted "factory reference count is not zero"
  ∧ Driver_destroy Driver_new = Destroyed.
Proof.
  split.
  - apply (Driver_destroy_aborts_iff_leaked (set_factory_count Driver_new 2)).
    simpl. lia.
  - apply (Driver_destroy_aborts_iff_leaked Driver_new). reflexivity.
Defined.

(** ** Drivers::GetDriver *)

Section GetDriverProperties.

Implicit Types (l : list Driver) (d r : Driver) (c t n v : string)
  (temp : option Driver).

Lemma same_identity_spec c t n d :
  same_identity (desc_ d) c t n = true ↔ identity_is c t n d.
Proof.
  unfold same_identity, identity_is.
  destruct (String.eqb_spec (driver_class_ (desc_ d)) c),
           (String.eqb_spec (driver_type_ (desc_ d)) t),
           (String.eqb_spec (driver_name_ (desc_ d)) n); simpl;
    split; intros H; try done; by destruct H as (? & ? & ?).
Qed.

Lemma same_identity_false c t n d :
  same_identity (desc_ d) c t n = false ↔ ¬ identity_is c t n d.
Proof.
  rewrite <- same_identity_spec. by destruct (same_identity (desc_ d) c t n).
Qed.

(** A driver with the requested version is returned as soon as the scan
    meets it, whatever [temp_driver] holds by then. *)
Lemma GetDriver_loop_exact l c t n v temp :
  (∃ d, d ∈ l ∧ identity_is c t n d ∧ version_of d = v) →
  ∃ l1 r l2,
    l = l1 ++ r :: l2
    ∧ GetDriver_loop l c t n v temp = Some r
    ∧ identity_is c t n r ∧ version_of r = v
    ∧ ∀ d, d ∈ l1 → ¬ (identity_is c t n d ∧ version_of d = v).
Proof.
  revert temp. induction l as [|x l IH]; intros temp [d (Hin & Hid & Hv)].
  { by apply elem_of_nil in Hin. }
  simpl.
  destruct (same_identity (desc_ x) c t n) eqn:Hx; simpl.
  - destruct (String.eqb_spec (driver_version_ (desc_ x)) v) as [Hxv|Hxv].
    + exists [], x, l. apply same_identity_spec in Hx.
      repeat split; try done; try apply Hx. intros d' Hd'. by apply elem_of_nil in Hd'.
    + assert (Hl : ∃ d, d ∈ l ∧ identity_is c t n d ∧ version_of d = v).
      { apply elem_of_cons in Hin as [->|Hin]; [done|]. eauto. }
      assert (Hstep : ∀ temp', ∃ l1 r l2,
                 x :: l = l1 ++ r :: l2
                 ∧ GetDriver_loop l c t n v temp' = Some r
                 ∧ identity_is c t n r ∧ version_of r = v
                 ∧ ∀ d, d ∈ l1 → ¬ (identity_is c t n d ∧ version_of d = v)).
      { intros temp'. destruct (IH temp' Hl) as (l1 & r & l2 & -> & Hr & Hrid & Hrv & Hno).
        exists (x :: l1), r, l2. repeat split; try done; try apply Hrid.
        intros d' [->|Hd']%elem_of_cons; [|by apply Hno].
        intros [_ Hv']. done. }
      destruct temp as [cur|]; [|apply Hstep].
      destruct (String.ltb _ _); apply Hstep.
  - assert (Hl : ∃ d, d ∈ l ∧ identity_is c t n d ∧ version_of d = v).
    { apply elem_of_cons in Hin as [->|Hin]; [|eauto].
      apply same_identity_false in Hx. done. }
    destruct (IH temp Hl) as (l1 & r & l2 & -> & Hr & Hrid & Hrv & Hno).
    exists (x :: l1), r, l2. repeat split; try done; try apply Hrid.
    intros d' [->|Hd']%elem_of_cons; [|by apply Hno].
    apply same_identity_false in Hx. intros [Hid' _]. done.
Qed.

(** Without a driver of the requested version the loop keeps, in
    [temp_driver], the first of the matching drivers met so far whose
    version is greatest. *)
Lemma GetDriver_loop_greatest l c t n v temp :
  (∀ d, d ∈ l → identity_is c t n d → version_of d ≠ v) →
  match GetDriver_loop l c t n v temp with
  | None => temp = None ∧ ∀ d, d ∈ l → ¬ identity_is c t n d
  | Some r =>
      (temp = Some r
       ∧ ∀ d, d ∈ l → identity_is c t n d → string_le (version_of d) (version_of r))
      ∨ (∃ l1 l2,
           l = l1 ++ r :: l2 ∧ identity_is c t n r
           ∧ (∀ cur, temp = Some cur → string_lt (version_of cur) (version_of r))
           ∧ (∀ d, d ∈ l1 → identity_is c t n d →
                   string_lt (version_of d) (version_of r))
           ∧ (∀ d, d ∈ l2 → identity_is c t n d →
                   string_le (version_of d) (version_of r)))
  end.
Proof.
  revert temp. induction l as [|x l IH]; intros temp Hne; simpl.
  { destruct temp as [cur|].
    - left. split; [done|]. intros d Hd. by apply elem_of_nil in Hd.
    - split; [done|]. intros d Hd. by apply elem_of_nil in Hd. }
  assert (Hne' : ∀ d, d ∈ l → identity_is c t n d → version_of d ≠ v).
  { intros d Hd. apply Hne. by apply elem_of_cons; right. }
  destruct (same_identity (desc_ x) c t n) eqn:Hx; simpl.
  - pose proof Hx as Hxid. apply same_identity_spec in Hxid.
    destruct (String.eqb_spec (driver_version_ (desc_ x)) v) as [Hxv|_].
    { exfalso. eapply Hne; [apply elem_of_cons; by left|done|done]. }
    (* the scan goes on with [x] as the candidate *)
    assert (Htake :
      (∀ cur, temp = Some cur → string_lt (version_of cur) (version_of x)) →
      match GetDriver_loop l c t n v (Some x) with
      | None => temp = None ∧ ∀ d, d ∈ x :: l → ¬ identity_is c t n d
      | Some r =>
          (temp = Some r
           ∧ ∀ d, d ∈ x :: l → identity_is c t n d →
                  string_le (version_of d) (version_of r))
          ∨ (∃ l1 l2,
               x :: l = l1 ++ r :: l2 ∧ identity_is c t n r
               ∧ (∀ cur, temp = Some cur → string_lt (version_of cur) (version_of r))
               ∧ (∀ d, d ∈ l1 → identity_is c t n d →
                       string_lt (version_of d) (version_of r))
               ∧ (∀ d, d ∈ l2 → identity_is c t n d →
                       string_le (version_of d) (version_of r)))
      end).
    { intros Hlt. specialize (IH (Some x) Hne').
      destruct (GetDriver_loop l c t n v (Some x)) as [r|]; [|by destruct IH].
      right. destruct IH as [[[= <-] Hle] | (l1 & l2 & -> & Hrid & Hxr & H1 & H2)].
      - exists [], l. repeat split; try done; try apply Hxid.
        intros d Hd. by apply elem_of_nil in Hd.
      - exists (x :: l1), l2. repeat split; try done; try apply Hrid.
        + intros cur Ht0. eapply string_lt_trans; [by apply Hlt|by apply Hxr].
        + intros d [->|Hd]%elem_of_cons Hid; [by apply Hxr|by apply H1]. }
    destruct temp as [cur|].
    + destruct (String.ltb (driver_version_ (desc_ cur)) (driver_version_ (desc_ x)))
        eqn:Hcmp.
      * apply Htake. by intros ? [= <-].
      * apply string_not_lt_le in Hcmp.
        specialize (IH (Some cur) Hne').
        destruct (GetDriver_loop l c t n v (Some cur)) as [r|]; [|by destruct IH].
        destruct IH as [[[= <-] Hle] | (l1 & l2 & -> & Hrid & Htr & H1 & H2)].
        -- left. split; [done|].
           intros d [->|Hd]%elem_of_cons Hid; [done|by apply Hle].
        -- right. exists (x :: l1), l2. repeat split; try done; try apply Hrid.
           intros d [->|Hd]%elem_of_cons Hid; [|by apply H1].
           eapply string_le_lt_trans; [exact Hcmp|by apply Htr].
    + apply Htake. by intros.
  - apply same_identity_false in Hx.
    specialize (IH temp Hne').
    destruct (GetDriver_loop l c t n v temp) as [r|].
    + destruct IH as [[-> Hle] | (l1 & l2 & -> & Hrid & Htr & H1 & H2)].
      * left. split; [done|].
        intros d [->|Hd]%elem_of_cons Hid; [done|by apply Hle].
      * right. exists (x :: l1), l2. repeat split; try done; try apply Hrid.
        intros d [->|Hd]%elem_of_cons Hid; [done|by apply H1].
    + destruct IH as [-> Hno]. split; [done|].
      intros d [->|Hd]%elem_of_cons; [done|by apply Hno].
Qed.

Lemma GetDriver_loop_None l c t n v temp :
  GetDriver_loop l c t n v temp = None →
  temp = None ∧ ∀ d, d ∈ l → ¬ identity_is c t n d.
Proof.
  revert temp. induction l as [|x l IH]; intros temp; simpl.
  { intros ->. split; [done|]. intros d Hd. by apply elem_of_nil in Hd. }
  destruct (same_identity (desc_ x) c t n) eqn:Hx; simpl.
  - destruct (String.eqb _ v); [done|].
    destruct temp as [cur|].
    + destruct (String.ltb _ _); intros [[=] _]%IH.
    + intros [[=] _]%IH.
  - apply same_identity_false in Hx. intros [-> Hno]%IH. split; [done|].
    intros d [->|Hd]%elem_of_cons; [done|by apply Hno].
Qed.

Lemma GetDriver_None_iff (ds : Drivers) c t n v :
  GetDriver ds c t n v = None ↔
  ∀ d, d ∈ drivers_list_ ds → ¬ identity_is c t n d.
Proof.
  unfold GetDriver. split.
  - intros Hnone. by apply GetDriver_loop_None in Hnone as [_ Hnone].
  - intros Hnone.
    assert (Hne : ∀ d, d ∈ drivers_list_ ds → identity_is c t n d →
                       version_of d ≠ v).
    { intros d Hd Hid. by destruct (Hnone d Hd). }
    pose proof (GetDriver_loop_greatest (drivers_list_ ds) c t n v None Hne) as H.
    destruct (GetDriver_loop (drivers_list_ ds) c t n v None) as [r|]; [|done].
    destruct H as [[[=] _] | (l1 & l2 & Hl & Hrid & _)].
    destruct (Hnone r); [|done]. rewrite Hl. apply elem_of_app. right.
    apply elem_of_cons. by left.
Qed.

(** C2. [GetDriver] returns a driver of the queried class, type and name
    with exactly the requested version when the list holds one (the first
    such in scan order); otherwise the matching driver whose version
    string is lexicographically greatest, the earliest in scan order among
    equals; and none exactly when no driver matches. Between ["2.0.0"] and
    ["10.0.0"] it selects ["2.0.0"], in either scan order. *)
Theorem GetDriver_selection (ds : Drivers) c t n v :
  ((∃ d, d ∈ drivers_list_ ds ∧ identity_is c t n d ∧ version_of d = v) →
   ∃ l1 r l2,
     drivers_list_ ds = l1 ++ r :: l2
     ∧ GetDriver ds c t n v = Some r
     ∧ identity_is c t n r ∧ version_of r = v
     ∧ ∀ d, d ∈ l1 → ¬ (identity_is c t n d ∧ version_of d = v))
  ∧ ((¬ ∃ d, d ∈ drivers_list_ ds ∧ identity_is c t n d ∧ version_of d = v) →
     (∃ d, d ∈ drivers_list_ ds ∧ identity_is c t n d) →
     ∃ l1 r l2,
       drivers_list_ ds = l1 ++ r :: l2
       ∧ GetDriver ds c t n v = Some r
       ∧ identity_is c t n r
       ∧ (∀ d, d ∈ l1 → identity_is c t n d →
               string_lt (version_of d) (version_of r))
       ∧ (∀ d, d ∈ l2 → identity_is c t n d →
               string_le (version_of d) (version_of r)))
  ∧ (GetDriver ds c t n v = None ↔
     ∀ d, d ∈ drivers_list_ ds → ¬ identity_is c t n d)
  ∧ (∀ d2 d10,
       identity_is c t n d2 → version_of d2 = "2.0.0" →
       identity_is c t n d10 → version_of d10 = "10.0.0" →
       v ≠ "2.0.0" → v ≠ "10.0.0" →
       drivers_list_ ds = [d2; d10] ∨ drivers_list_ ds = [d10; d2] →
       GetDriver ds c t n v = Some d2).
Proof.
  split; [|split; [|split]]; [unfold GetDriver..| |unfold GetDriver].
  - apply GetDriver_loop_exact.
  - intros Hno [d0 [Hd0 Hid0]].
    assert (Hne : ∀ d, d ∈ drivers_list_ ds → identity_is c t n d → version_of d ≠ v).
    { intros d Hd Hid Hv. apply Hno. eauto. }
    pose proof (GetDriver_loop_greatest (drivers_list_ ds) c t n v None Hne) as H.
    destruct (GetDriver_loop (drivers_list_ ds) c t n v None) as [r|].
    + destruct H as [[[=] _] | (l1 & l2 & Hl & Hrid & _ & H1 & H2)].
      exists l1, r, l2. done.
    + destruct H as [_ H]. by destruct (H d0 Hd0).
  - apply GetDriver_None_iff.
  - intros d2 d10 Hid2 Hv2 Hid10 Hv10 Hn2 Hn10 Hl.
    apply same_identity_spec in Hid2, Hid10. unfold version_of in *.
    destruct Hl as [-> | ->]; simpl; rewrite Hid2, Hid10; simpl;
      rewrite Hv2, Hv10;
      destruct (String.eqb_spec "2.0.0" v) as [E|_]; try (by destruct Hn2);
      destruct (String.eqb_spec "10.0.0" v) as [E|_]; try (by destruct Hn10);
      reflexivity.
Qed.

Lemma GetDriver_selection_witness :
  GetDriver two_versions "cpu" "x" "foo" ""
    = Some (plain_driver "cpu" "x" "foo" "2.0.0" "")
  ∧ ∃ r, GetDriver two_versions "cpu" "x" "foo" "10.0.0" = Some r
         ∧ version_of r = "10.0.0".
Proof.
  split.
  - apply (GetDriver_selection two_versions "cpu" "x" "foo" "")
      with (d10 := plain_driver "cpu" "x" "foo" "10.0.0" "");
      try done. by right.
  - destruct (GetDriver_selection two_versions "cpu" "x" "foo" "10.0.0")
      as [Hexact _].
    destruct Hexact as (l1 & r & l2 & _ & Hr & _ & Hv & _).
    + exists (plain_driver "cpu" "x" "foo" "10.0.0" "").
      split; [apply elem_of_cons; by left|done].
    + by exists r.
Defined.

End GetDriverProperties.

(** ** The deduplicated projections *)

Section Projections.

Implicit Types (l : list string) (x y : string).

(** [std::sort] is modelled by one sorting algorithm; any other returns
    the same list. *)
Lemma sort_is_the_sorted_permutation l l' :
  l' ≡ₚ l → Sorted string_le l' → l' = sort l.
Proof.
  intros Hperm Hsorted. apply (Sorted_unique string_le); [done| |].
  - apply Sorted_merge_sort, _.
  - unfold sort. by rewrite merge_sort_Permutation.
Qed.

Lemma elem_of_unique l x : x ∈ unique l ↔ x ∈ l.
Proof.
  induction l as [|a l IH]; [done|].
  cbn [unique]. destruct l as [|b l'].
  { done. }
  destruct (String.eqb_spec a b) as [->|Hab].
  - rewrite IH. split.
    + intros ?. apply elem_of_cons. by right.
    + intros [->|?]%elem_of_cons; [apply elem_of_cons; by left|done].
  - rewrite elem_of_cons, IH. by rewrite (elem_of_cons (b :: l')).
Qed.

Lemma unique_strictly_sorted l :
  StronglySorted string_le l → StronglySorted string_lt (unique l).
Proof.
  induction l as [|a l IH]; intros Hs; [constructor|].
  apply StronglySorted_inv in Hs as [Hl Ha].
  cbn [unique]. destruct l as [|b l'].
  { repeat constructor. }
  destruct (String.eqb_spec a b) as [->|Hab]; [by apply IH|].
  constructor; [by apply IH|].
  apply Forall_forall. intros z Hz. apply (proj1 (elem_of_unique _ _)) in Hz.
  assert (Hlt : string_lt a b).
  { apply Forall_cons in Ha as [Hle _].
    apply string_le_cases in Hle as [?| ->]; done. }
  apply elem_of_cons in Hz as [->|Hz]; [done|].
  apply StronglySorted_inv in Hl as [_ Hb].
  eapply string_lt_le_trans; [exact Hlt|].
  by eapply Forall_forall in Hb.
Qed.

Lemma strictly_sorted_NoDup l : StronglySorted string_lt l → NoDup l.
Proof.
  induction 1 as [|a l Hl IH Ha]; constructor; [|done].
  intros Hin. eapply Forall_forall in Ha; [|exact Hin].
  by apply string_lt_irrefl in Ha.
Qed.

Lemma RemoveSameElements_sorted l :
  StronglySorted string_lt (RemoveSameElements l).
Proof.
  apply unique_strictly_sorted. unfold sort.
  apply StronglySorted_merge_sort; apply _.
Qed.

Lemma elem_of_RemoveSameElements l x : x ∈ RemoveSameElements l ↔ x ∈ l.
Proof.
  unfold RemoveSameElements, sort.
  by rewrite elem_of_unique, merge_sort_Permutation.
Qed.

Lemma elem_of_RemoveSameElements_map {A} (f : A → string) (xs : list A) x :
  x ∈ RemoveSameElements (List.map f xs) ↔ ∃ a, a ∈ xs ∧ f a = x.
Proof.
  rewrite elem_of_RemoveSameElements, list_elem_of_In, in_map_iff.
  split; intros (a & H1 & H2); exists a.
  - by rewrite list_elem_of_In.
  - by rewrite <- list_elem_of_In.
Qed.

(** C10. The class, type and name lists are the projections sorted in
    ascending lexicographic order with duplicates removed, not the scan
    order: for every registry each list is strictly ascending, hence
    duplicate-free, and holds exactly the projected values. *)
Theorem driver_lists_sorted_and_duplicate_free (ds : Drivers)
    (driver_class driver_type : string) :
  (StronglySorted string_lt (GetDriverClassList ds)
   ∧ NoDup (GetDriverClassList ds)
   ∧ ∀ x, x ∈ GetDriverClassList ds ↔
          ∃ d, d ∈ drivers_list_ ds ∧ driver_class_ (desc_ d) = x)
  ∧ (StronglySorted string_lt (GetDriverTypeList ds driver_class)
     ∧ NoDup (GetDriverTypeList ds driver_class)
     ∧ ∀ x, x ∈ GetDriverTypeList ds driver_class ↔
            ∃ d, d ∈ drivers_list_ ds ∧ driver_class_ (desc_ d) = driver_class
                 ∧ driver_type_ (desc_ d) = x)
  ∧ (StronglySorted string_lt (GetDriverNameList ds driver_class driver_type)
     ∧ NoDup (GetDriverNameList ds driver_class driver_type)
     ∧ ∀ x, x ∈ GetDriverNameList ds driver_class driver_type ↔
            ∃ d, d ∈ drivers_list_ ds ∧ driver_class_ (desc_ d) = driver_class
                 ∧ driver_type_ (desc_ d) = driver_type
                 ∧ driver_name_ (desc_ d) = x)
  ∧ GetDriverClassList unordered_classes = ["a"; "b"].
Proof.
  unfold GetDriverClassList, GetDriverTypeList, GetDriverNameList.
  split; [|split; [|split]]; [| | |reflexivity];
    (split; [apply RemoveSameElements_sorted|]);
    (split; [apply strictly_sorted_NoDup, RemoveSameElements_sorted|]);
    intros x; rewrite elem_of_RemoveSameElements_map.
  - done.
  - split.
    + intros (d & Hd & <-). apply list_elem_of_In, filter_In in Hd as [Hd Hc].
      apply String.eqb_eq in Hc. exists d. by rewrite list_elem_of_In.
    + intros (d & Hd & Hc & <-). exists d. split; [|done].
      apply list_elem_of_In, filter_In.
      split; [by apply list_elem_of_In|by apply String.eqb_eq].
  - split.
    + intros (d & Hd & <-). apply list_elem_of_In, filter_In in Hd as [Hd Hc].
      apply andb_true_iff in Hc as [Hc Ht]. apply String.eqb_eq in Hc, Ht.
      exists d. by rewrite list_elem_of_In.
    + intros (d & Hd & Hc & Ht & <-). exists d. split; [|done].
      apply list_elem_of_In, filter_In. split; [by apply list_elem_of_In|].
      apply andb_true_iff. by split; apply String.eqb_eq.
Qed.

End Projections.

(** ** Drivers::Add *)

Section AddProperties.

Lemma DriversContains_spec (l : list Driver) (driver : Driver) :
  DriversContains l driver = true ↔
  ∃ d, d ∈ l ∧ identity_tuple d = identity_tuple driver.
Proof.
  induction l as [|x l IH]; simpl.
  { split; [done|]. intros (d & Hd & _). by apply elem_of_nil in Hd. }
  assert (Hskip : identity_tuple x ≠ identity_tuple driver →
            (DriversContains l driver = true ↔
             ∃ d, d ∈ x :: l ∧ identity_tuple d = identity_tuple driver)).
  { intros Hne. rewrite IH. split.
    - intros (d & Hd & Heq). exists d. split; [by apply elem_of_cons; right|done].
    - intros (d & [->|Hd]%elem_of_cons & Heq); [done|eauto]. }
  unfold identity_tuple in *.
  destruct (String.eqb_spec (driver_class_ (desc_ x)) (driver_class_ (desc_ driver)));
    simpl; [|apply Hskip; congruence].
  destruct (String.eqb_spec (driver_type_ (desc_ x)) (driver_type_ (desc_ driver)));
    simpl; [|apply Hskip; congruence].
  destruct (String.eqb_spec (driver_name_ (desc_ x)) (driver_name_ (desc_ driver)));
    simpl; [|apply Hskip; congruence].
  destruct (String.eqb_spec (driver_description_ (desc_ x))
              (driver_description_ (desc_ driver)));
    simpl; [|apply Hskip; congruence].
  destruct (String.eqb_spec (driver_version_ (desc_ x)) (driver_version_ (desc_ driver)));
    simpl; [|apply Hskip; congruence].
  split; [|done]. intros _. exists x. split; [apply elem_of_cons; by left|].
  congruence.
Qed.

(** C7. [Add] appends at most one driver. When a driver with the same
    (class, type, name, version, description) tuple is already listed it
    returns the "already registered" error, and on a failed [dlopen] or a
    missing [DriverDescription] the corresponding error; whenever it does
    not return success the registry is left as it was. *)
Theorem Add_appends_at_most_one (env : Loader) (file : string) (ds : Drivers) :
  let status := fst (fst (Add env file ds)) in
  let ds' := snd (fst (Add env file ds)) in
  let lazy_local := Z.lor RTLD_LAZY RTLD_LOCAL in
  (ds' = ds ∨ ∃ d, ds' = set_drivers_list ds (drivers_list_ ds ++ [d]))
  ∧ (Code status ≠ STATUS_OK → ds' = ds)
  ∧ (dlopen env file lazy_local = None →
     Code status = STATUS_INVALID ∧ ds' = ds)
  ∧ (∀ h, dlopen env file lazy_local = Some h →
          sym_DriverDescription env h = None →
          Code status = STATUS_NOTSUPPORT ∧ ds' = ds)
  ∧ (∀ h describe,
       dlopen env file lazy_local = Some h →
       sym_DriverDescription env h = Some describe →
       let driver := SetDriverDesc Driver_new (describe DriverDesc_new) in
       ((∃ d, d ∈ drivers_list_ ds ∧ identity_tuple d = identity_tuple driver) →
        status = mkStatus STATUS_EXIST (file ++ " : driver is already registered.")%string
        ∧ ds' = ds)
       ∧ ((¬ ∃ d, d ∈ drivers_list_ ds ∧ identity_tuple d = identity_tuple driver) →
          Code status = STATUS_OK
          ∧ ds' = set_drivers_list ds
                    (drivers_list_ ds
                     ++ [SetDriverDesc driver (SetFilePath (desc_ driver) file)]))).
Proof.
  cbv zeta. unfold Add.
  destruct (dlopen env file (Z.lor RTLD_LAZY RTLD_LOCAL)) as [h|] eqn:Hopen; simpl.
  2:{ split; [by left|]. repeat split; done. }
  destruct (sym_DriverDescription env h) as [describe|] eqn:Hsym; simpl.
  2:{ split; [by left|]. repeat split; try done. all: intros; simplify_eq. }
  destruct (DriversContains (drivers_list_ ds)
              (SetDriverDesc Driver_new (describe DriverDesc_new))) eqn:Hdup; simpl.
  - split; [by left|]. split; [done|]. split; [done|].
    split; [intros ? [= <-]; congruence|].
    intros h' describe' [= <-]. rewrite Hsym. intros [= <-]. split; [done|].
    intros Hno. exfalso. apply Hno. by apply DriversContains_spec.
  - split; [right; eauto|]. split; [done|]. split; [done|].
    split; [intros ? [= <-]; congruence|].
    intros h' describe' [= <-]. rewrite Hsym. intros [= <-]. split; [|done].
    intros Hex%DriversContains_spec. congruence.
Qed.

Lemma Add_appends_at_most_one_witness :
  (* a second library describing an already registered driver *)
  (let ds := snd (fst (Add (foo_loader None false) "libmodelbox-foo.so" Drivers_new)) in
   fst (fst (Add (foo_loader None false) "libmodelbox-foo.so" ds))
     = mkStatus STATUS_EXIST "libmodelbox-foo.so : driver is already registered."
   ∧ snd (fst (Add (foo_loader None false) "libmodelbox-foo.so" ds)) = ds)
  (* a file that cannot be opened *)
  ∧ snd (fst (Add (foo_loader None false) "libmodelbox-bar.so" Drivers_new)) = Drivers_new
  (* a library without [DriverDescription] *)
  ∧ snd (fst (Add bare_loader "libmodelbox-bar.so" Drivers_new)) = Drivers_new.
Proof.
  split; [|split].
  - cbv zeta.
    pose proof (Add_appends_at_most_one (foo_loader None false) "libmodelbox-foo.so"
      (snd (fst (Add (foo_loader None false) "libmodelbox-foo.so" Drivers_new))))
      as (_ & _ & _ & _ & H).
    destruct (H 1%positive (describe_foo "1.2.3" false) eq_refl eq_refl) as [Hdup _].
    apply Hdup. eexists. split; [apply elem_of_cons; left; reflexivity|reflexivity].
  - pose proof (Add_appends_at_most_one (foo_loader None false) "libmodelbox-bar.so"
      Drivers_new) as (_ & _ & H & _).
    by apply H.
  - pose proof (Add_appends_at_most_one bare_loader "libmodelbox-bar.so" Drivers_new)
      as (_ & _ & _ & H & _).
    by apply (H 1%positive).
Defined.

End AddProperties.

(** ** The factory life cycle *)

Section Lifecycle.

Implicit Types (env : Loader) (st : State) (h : handle) (d : Driver).

(** Symbolic execution: unfold the methods and the monad, then look up
    the handle table. *)
Ltac run :=
  cbv beta iota zeta delta
    [CreateFactory CloseFactory child_factory step_factory_count
     step_initialize_count DriverHandler_Add DriverHandler_Remove
     DriverHandler_Get get_this modify_this get_handler_map put_handler_map
     set_StatusError emit null_deref mbind M_bind mret M_ret
     this handler_map StatusError trace
     desc_ factory_count_ driver_handler_ factory_ is_virtual_
     set_factory_count set_driver_handler set_factory
     handler_refcnt_ initialize_count_ DriverHandlerInfo_new with_this
     entry_before GetDriverFile mode_of negb].

(** Decide the comparisons between counters whose values are known. *)
Ltac calc :=
  repeat match goal with
    | |- context [Z.eqb ?a ?b] =>
        let v := eval vm_compute in (Z.eqb a b) in
        lazymatch v with true => idtac | false => idtac end;
        change (Z.eqb a b) with v
    | |- context [Z.ltb ?a ?b] =>
        let v := eval vm_compute in (Z.ltb a b) in
        lazymatch v with true => idtac | false => idtac end;
        change (Z.ltb a b) with v
    end.

Ltac run_with H :=
  run; repeat (first [rewrite H | rewrite lookup_insert_eq | progress calc]; run).

Lemma DriverHandler_Remove_absent h st :
  handler_map st !! h = None → DriverHandler_Remove h st = NullDeref st.
Proof. destruct st as [d hm err tr]. simpl. intros H. run. by rewrite H. Qed.

Lemma DriverHandler_Remove_present h st info :
  handler_map st !! h = Some info →
  ∃ st', DriverHandler_Remove h st = Done (StatusOf STATUS_SUCCESS) st'
         ∧ handler_map st' =
             (if (handler_refcnt_ info - 1 =? 0)%Z then delete h (handler_map st)
              else <[h := mkInfo (handler_refcnt_ info - 1) (initialize_count_ info)]>
                     (handler_map st)).
Proof.
  destruct st as [d hm err tr], info as [rc ic]. simpl. intros H. run_with H.
  destruct (rc - 1 =? 0)%Z; eexists; split; try done.
  simpl. by rewrite delete_insert_eq.
Qed.

Lemma CloseFactory_present env st h info :
  driver_handler_ (this st) = Some h →
  handler_map st !! h = Some info →
  ∃ st', CloseFactory env st = Done tt st'.
Proof.
  destruct st as [[desc cnt hdl fac virt] hm err tr], info as [rc ic]. simpl.
  intros -> Hinfo. run.
  destruct (0 <? cnt + -1)%Z; [eauto|].
  run_with Hinfo.
  destruct (ic + -1 =? 0)%Z; [|eauto].
  destruct (driver_no_delete_ desc); simpl.
  - run_with Hinfo. eauto.
  - destruct (sym_DriverFini env h); run_with Hinfo;
      destruct (rc - 1 =? 0)%Z; eauto.
Qed.

(** C9. [DriverHandler::Remove] and the release path of [CloseFactory]
    use the result of [DriverHandler::Get] unchecked. For a handle without
    an entry in the table, [Remove] dereferences null; so does
    [CloseFactory] once the factory count has dropped to zero, right after
    logging the failed lookup. With the entry present both run to their
    end: presence of the entry is their precondition. *)
Theorem missing_entry_is_dereferenced env st h :
  (handler_map st !! h = None →
   DriverHandler_Remove h st = NullDeref st
   ∧ (driver_handler_ (this st) = Some h → (factory_count_ (this st) ≤ 1)%Z →
      ∃ st', CloseFactory env st = NullDeref st'
             ∧ handler_map st' = handler_map st
             ∧ trace st' =
                 trace st ++ [EvLog "close factory failed, get null driver_handler_info"]))
  ∧ (is_Some (handler_map st !! h) →
     (∃ st', DriverHandler_Remove h st = Done (StatusOf STATUS_SUCCESS) st')
     ∧ (driver_handler_ (this st) = Some h → ∃ st', CloseFactory env st = Done tt st')).
Proof.
  split.
  - intros Habsent. split; [by apply DriverHandler_Remove_absent|].
    destruct st as [[desc cnt hdl fac virt] hm err tr]. simpl in *.
    intros -> Hcnt. run.
    destruct (Z.ltb_spec 0 (cnt + -1)) as [?|_]; [lia|].
    run_with Habsent. eauto.
  - intros [info Hinfo]. split.
    + destruct (DriverHandler_Remove_present h st info Hinfo) as (st' & H & _). eauto.
    + intros Hh. by eapply CloseFactory_present.
Qed.

Lemma missing_entry_is_dereferenced_witness :
  DriverHandler_Remove 1%positive (fresh_state (foo_driver false))
    = NullDeref (fresh_state (foo_driver false))
  ∧ ∃ st', CloseFactory (foo_loader None false)
             (fresh_state
                (set_driver_handler (set_factory_count (foo_driver false) 1)
                   (Some 1%positive)))
           = NullDeref st'.
Proof.
  split.
  - by apply (missing_entry_is_dereferenced (foo_loader None false)
                (fresh_state (foo_driver false)) 1%positive).
  - destruct (missing_entry_is_dereferenced (foo_loader None false)
                (fresh_state
                   (set_driver_handler (set_factory_count (foo_driver false) 1)
                      (Some 1%positive))) 1%positive) as [Habsent _].
    destruct Habsent as [_ Hclose]; [done|].
    destruct Hclose as (st' & Hst' & _); [done|simpl; lia|].
    by exists st'.
Defined.

(** C1. When [CreateFactory] takes the first-initialization path and
    [DriverInit] cannot be resolved or fails, the call returns null with
    the factory count back at 0, the handle closed and the factory slot
    empty. The entry acquired in the handle table is however not released:
    the failure path decrements [initialize_count_] and [CloseFactory]
    decrements it once more, to -1, so the test for 0 fails, [Remove] is
    not called and the entry stays in the table. *)
Theorem CreateFactory_failed_DriverInit_keeps_entry env st h :
  factory_count_ (this st) = 0%Z →
  dlopen env (GetDriverFile (this st)) (mode_of (this st)) = Some h →
  initialize_count_ (entry_before st h) = 0%Z →
  (sym_DriverInit env h = None
   ∨ ∃ init, sym_DriverInit env h = Some init ∧ Code init ≠ STATUS_OK) →
  ∃ st',
    CreateFactory env st = Done None st'
    ∧ factory_count_ (this st') = 0%Z
    ∧ driver_handler_ (this st') = None
    ∧ factory_ (this st') = None
    ∧ last (trace st') = Some (EvDlclose h)
    ∧ handler_map st' !! h
      = Some (mkInfo (handler_refcnt_ (entry_before st h) + 1) (-1)).
Proof.
  destruct st as [[desc cnt hdl fac virt] hm err tr]. unfold entry_before. simpl.
  intros -> Hopen Hzero Hinit. cbv [GetDriverFile mode_of desc_] in Hopen.
  run. simpl. rewrite Hopen. run.
  assert (Hbad : ∀ init, Code init ≠ STATUS_OK → status_is init STATUS_OK = false).
  { intros init Hne. unfold status_is. by rewrite bool_decide_eq_false_2. }
  destruct (hm !! h) as [[rc ic]|] eqn:Hentry; simpl in Hzero; subst;
    run_with Hentry;
    (destruct Hinit as [Hnone | (init & Hsome & Hne)];
     [rewrite Hnone | rewrite Hsome; run; rewrite (Hbad init Hne)]);
    run_with Hentry;
    (eexists; split; [reflexivity|]); simpl;
    rewrite last_snoc, lookup_insert_eq; done.
Qed.

(** X13. The sibling failure paths do release the entry: when [DriverInit]
    succeeded and it is [CreateDriverFactory] that is missing or returns
    null, [CloseFactory] finds the init count at 1, takes it to 0 and
    removes the entry. *)
Lemma CreateFactory_failed_factory_releases_entry env st h init :
  factory_count_ (this st) = 0%Z →
  driver_no_delete_ (desc_ (this st)) = false →
  dlopen env (GetDriverFile (this st)) (mode_of (this st)) = Some h →
  handler_map st !! h = None →
  sym_DriverInit env h = Some init → Code init = STATUS_OK →
  (sym_CreateDriverFactory env h = None ∨ sym_CreateDriverFactory env h = Some None) →
  ∃ st',
    CreateFactory env st = Done None st'
    ∧ factory_count_ (this st') = 0%Z
    ∧ driver_handler_ (this st') = None
    ∧ factory_ (this st') = None
    ∧ handler_map st' !! h = None.
Proof.
  destruct st as [[desc cnt hdl fac virt] hm err tr]. simpl.
  intros -> Hnd Hopen Hentry Hinit Hok Hfactory.
  cbv [GetDriverFile mode_of desc_] in Hopen.
  run. simpl. rewrite Hopen. run_with Hentry. rewrite Hinit. run.
  unfold status_is. rewrite bool_decide_eq_true_2 by done. run.
  destruct Hfactory as [-> | ->]; run_with Hentry; rewrite Hnd; run;
    destruct (sym_DriverFini env h); run_with Hentry;
    (eexists; split; [reflexivity|]); simpl; by rewrite lookup_delete_eq.
Qed.

Lemma CreateFactory_failed_DriverInit_keeps_entry_witness :
  ∃ st',
    CreateFactory (foo_loader None false) (fresh_state (foo_driver false))
      = Done None st'
    ∧ factory_count_ (this st') = 0%Z
    ∧ handler_map st' !! 1%positive = Some (mkInfo 1 (-1)).
Proof.
  destruct (CreateFactory_failed_DriverInit_keeps_entry (foo_loader None false)
              (fresh_state (foo_driver false)) 1%positive)
    as (st' & Hrun & Hcnt & _ & _ & _ & Hentry);
    [reflexivity|reflexivity|reflexivity|by left|].
  exists st'. split; [exact Hrun|]. split; [exact Hcnt|exact Hentry].
Defined.

(** X22. A driver with [no_delete] never runs [DriverFini]: whatever the
    state, its [CloseFactory] adds no such call to the trace. *)
Lemma CloseFactory_no_delete_no_fini env st r st' :
  driver_no_delete_ (desc_ (this st)) = true →
  CloseFactory env st = Done r st' →
  ∃ evs, trace st' = trace st ++ evs ∧ Forall (λ e, is_DriverFini e = false) evs.
Proof.
  destruct st as [[desc cnt hdl fac virt] hm err tr]. simpl. intros Hnd. run.
  destruct (0 <? cnt + -1)%Z.
  { intros [= _ <-]. exists []. by rewrite app_nil_r. }
  destruct hdl as [h|]; run.
  2:{ intros [= _ <-]. exists []. by rewrite app_nil_r. }
  destruct (hm !! h) as [[rc ic]|] eqn:Hentry; run_with Hentry; [|done].
  rewrite Hnd. simpl.
  destruct (ic + -1 =? 0)%Z; run_with Hentry; intros [= _ <-];
    exists [EvDlclose h]; split; try done; by repeat constructor.
Qed.

(** The last [CloseFactory] of a driver with [no_delete], in full. *)
Lemma CloseFactory_no_delete_last env st h info :
  driver_no_delete_ (desc_ (this st)) = true →
  factory_count_ (this st) = 1%Z →
  driver_handler_ (this st) = Some h →
  handler_map st !! h = Some info →
  CloseFactory env st
  = Done tt
      (mkState
         (mkDriver (desc_ (this st)) 0 None None (is_virtual_ (this st)))
         (<[h := mkInfo (handler_refcnt_ info)
                   (if (initialize_count_ info =? 1)%Z then 1
                    else initialize_count_ info - 1)]> (handler_map st))
         (StatusError st)
         (trace st ++ [EvDlclose h])).
Proof.
  destruct st as [[desc cnt hdl fac virt] hm err tr], info as [rc ic]. simpl.
  intros Hnd -> -> Hentry. run_with Hentry. rewrite Hnd.
  destruct (Z.eqb_spec (ic + -1) 0) as [Hic|Hic]; run_with Hentry.
  - replace (ic =? 1)%Z with true by (symmetry; apply Z.eqb_eq; lia).
    rewrite insert_insert_eq. repeat f_equal. lia.
  - replace (ic =? 1)%Z with false by (symmetry; apply Z.eqb_neq; lia).
    reflexivity.
Qed.

(** [CreateFactory] on a handle whose entry has a non-zero init count
    calls neither [DriverInit] nor [DriverFini], whatever else happens. *)
Lemma CreateFactory_on_initialized_handle env st h info :
  factory_count_ (this st) = 0%Z →
  dlopen env (GetDriverFile (this st)) (mode_of (this st)) = Some h →
  handler_map st !! h = Some info →
  initialize_count_ info ≠ 0%Z →
  ∃ r st2 evs,
    CreateFactory env st = Done r st2
    ∧ trace st2 = trace st ++ evs
    ∧ Forall (λ e, is_DriverInit e = false ∧ is_DriverFini e = false) evs.
Proof.
  destruct st as [[desc cnt hdl fac virt] hm err tr], info as [rc k].
  cbv [GetDriverFile mode_of desc_]. simpl.
  intros -> Hopen Hentry Hk. run. simpl. rewrite Hopen. run_with Hentry.
  destruct (Z.eqb_spec (k + 1) 1) as [?|_]; [lia|]. run.
  destruct (sym_CreateDriverFactory env h) as [[f|]|]; run_with Hentry;
    try (destruct (Z.eqb_spec (k + 1 + -1) 0) as [?|_]; [lia|]; run);
    (eexists _, _, _; split; [reflexivity|]; simpl; split;
     [rewrite <- ?app_assoc; reflexivity|by repeat constructor]).
Qed.

(** C3. For a driver with [no_delete], the last [CloseFactory] leaves
    the entry in the table and, when the init reference count would drop
    to 0, puts it back to 1; [DriverFini] is not called; and a later
    [CreateFactory] on any driver backed by the same handle calls neither
    [DriverInit] nor [DriverFini]. *)
Theorem no_delete_keeps_entry_initialized env st h info :
  driver_no_delete_ (desc_ (this st)) = true →
  factory_count_ (this st) = 1%Z →
  driver_handler_ (this st) = Some h →
  handler_map st !! h = Some info →
  ∃ st1,
    CloseFactory env st = Done tt st1
    ∧ factory_count_ (this st1) = 0%Z
    ∧ handler_map st1 !! h
      = Some (mkInfo (handler_refcnt_ info)
                (if (initialize_count_ info =? 1)%Z then 1
                 else initialize_count_ info - 1))
    ∧ trace st1 = trace st ++ [EvDlclose h]
    ∧ ∀ d2,
        factory_count_ d2 = 0%Z →
        dlopen env (GetDriverFile d2) (mode_of d2) = Some h →
        ∃ r st2 evs,
          CreateFactory env (with_this st1 d2) = Done r st2
          ∧ trace st2 = trace st1 ++ evs
          ∧ Forall (λ e, is_DriverInit e = false ∧ is_DriverFini e = false) evs.
Proof.
  intros Hnd Hcnt Hh Hentry.
  eexists. split; [by apply CloseFactory_no_delete_last|].
  simpl. rewrite lookup_insert_eq. repeat split; try done.
  intros d2 Hcnt2 Hopen.
  eapply (CreateFactory_on_initialized_handle env); simpl; try done.
  - by rewrite lookup_insert_eq.
  - simpl. destruct (Z.eqb_spec (initialize_count_ info) 1); lia.
Qed.

Example CreateFactory_foo_no_delete :
  CreateFactory (foo_loader (Some (StatusOf STATUS_OK)) true)
    (fresh_state (foo_driver true))
  = Done (Some 7%positive) active_foo_state.
Proof. vm_compute. reflexivity. Qed.

Lemma no_delete_keeps_entry_initialized_witness :
  ∃ st1 r st2 evs,
    CloseFactory (foo_loader (Some (StatusOf STATUS_OK)) true) active_foo_state
      = Done tt st1
    ∧ handler_map st1 !! 1%positive = Some (mkInfo 1 1)
    ∧ CreateFactory (foo_loader (Some (StatusOf STATUS_OK)) true)
        (with_this st1 (foo_driver true)) = Done r st2
    ∧ trace st2 = trace st1 ++ evs
    ∧ Forall (λ e, is_DriverInit e = false ∧ is_DriverFini e = false) evs.
Proof.
  destruct (no_delete_keeps_entry_initialized
              (foo_loader (Some (StatusOf STATUS_OK)) true)
              active_foo_state 1%positive (mkInfo 1 1))
    as (st1 & Hclose & _ & Hentry & _ & Hnext);
    [reflexivity|reflexivity|reflexivity|reflexivity|].
  destruct (Hnext (foo_driver true)) as (r & st2 & evs & Hcreate & Htrace & Hevs);
    [reflexivity|reflexivity|].
  exists st1, r, st2, evs.
  split; [exact Hclose|]. split; [exact Hentry|].
  split; [exact Hcreate|]. split; [exact Htrace|exact Hevs].
Defined.

(** *** Further properties of the life cycle *)

(** [CreateFactory] on a driver that is already active only counts. *)
Lemma CreateFactory_active env st :
  factory_count_ (this st) ≠ 0%Z →
  CreateFactory env st
  = Done (factory_ (this st))
      (mkState (set_factory_count (this st) (factory_count_ (this st) + 1))
         (handler_map st) (StatusError st) (trace st)).
Proof.
  destruct st as [[desc cnt hdl fac virt] hm err tr]. simpl. intros Hcnt. run.
  destruct (Z.eqb_spec (cnt + 1) 1) as [?|_]; [lia|]. reflexivity.
Qed.

(** [CloseFactory] on a driver with other references left only counts. *)
Lemma CloseFactory_shared env st :
  (1 < factory_count_ (this st))%Z →
  CloseFactory env st
  = Done tt
      (mkState (set_factory_count (this st) (factory_count_ (this st) - 1))
         (handler_map st) (StatusError st) (trace st)).
Proof.
  destruct st as [[desc cnt hdl fac virt] hm err tr]. simpl. intros Hcnt. run.
  destruct (Z.ltb_spec 0 (cnt + -1)) as [_|?]; [|lia]. reflexivity.
Qed.

(** The state a first, fully successful [CreateFactory] leaves. *)
Lemma CreateFactory_fresh env st h init f :
  factory_count_ (this st) = 0%Z →
  dlopen env (GetDriverFile (this st)) (mode_of (this st)) = Some h →
  initialize_count_ (entry_before st h) = 0%Z →
  sym_DriverInit env h = Some init → Code init = STATUS_OK →
  sym_CreateDriverFactory env h = Some (Some f) →
  CreateFactory env st
  = Done (Some f)
      (mkState
         (mkDriver (desc_ (this st)) 1 (Some h) (Some f) (is_virtual_ (this st)))
         (<[h := mkInfo (handler_refcnt_ (entry_before st h) + 1) 1]> (handler_map st))
         (StatusError st)
         (trace st ++ [EvDlopen (GetDriverFile (this st)) (mode_of (this st));
                       EvDriverInit h; EvCreateDriverFactory h])).
Proof.
  destruct st as [[desc cnt hdl fac virt] hm err tr]. unfold entry_before. simpl.
  intros -> Hopen Hzero Hinit Hok Hfactory. cbv [GetDriverFile mode_of desc_] in *.
  run. simpl. rewrite Hopen. run.
  destruct (hm !! h) as [[rc ic]|] eqn:Hentry; simpl in Hzero; subst;
    run_with Hentry; rewrite Hinit; run; unfold status_is;
    rewrite bool_decide_eq_true_2 by done; run; rewrite Hfactory; run;
    rewrite !insert_insert_eq, <- !app_assoc; reflexivity.
Qed.

(** X1. The first [CreateFactory] of an unloaded driver on a handle that is
    not initialized yet, with every entry point present and succeeding:
    the library is opened once, [DriverInit] runs once and before
    [CreateDriverFactory], the factory is returned, and the entry of the
    handle counts one more reference and init count 1. *)
Theorem CreateFactory_first_success env st h init f :
  factory_count_ (this st) = 0%Z →
  dlopen env (GetDriverFile (this st)) (mode_of (this st)) = Some h →
  initialize_count_ (entry_before st h) = 0%Z →
  sym_DriverInit env h = Some init → Code init = STATUS_OK →
  sym_CreateDriverFactory env h = Some (Some f) →
  CreateFactory env st
  = Done (Some f)
      (mkState
         (mkDriver (desc_ (this st)) 1 (Some h) (Some f) (is_virtual_ (this st)))
         (<[h := mkInfo (handler_refcnt_ (entry_before st h) + 1) 1]> (handler_map st))
         (StatusError st)
         (trace st ++ [EvDlopen (GetDriverFile (this st)) (mode_of (this st));
                       EvDriverInit h; EvCreateDriverFactory h])).
Proof. apply CreateFactory_fresh. Qed.

Lemma CreateFactory_first_success_witness :
  CreateFactory (foo_loader (Some (StatusOf STATUS_OK)) false)
    (fresh_state (foo_driver false))
  = Done (Some 7%positive)
      (mkState
         (mkDriver (desc_ (foo_driver false)) 1 (Some 1%positive) (Some 7%positive) false)
         (<[1%positive := mkInfo 1 1]> ∅)
         (StatusOf STATUS_SUCCESS)
         [EvDlopen "libmodelbox-foo.so" 2; EvDriverInit 1%positive;
          EvCreateDriverFactory 1%positive]).
Proof.
  apply (CreateFactory_first_success (foo_loader (Some (StatusOf STATUS_OK)) false)
           (fresh_state (foo_driver false)) 1%positive (StatusOf STATUS_OK) 7%positive);
    reflexivity.
Defined.

Lemma times_end (n : nat) (m : M unit) st :
  times (S n) m st
  = match times n m st with
    | Done _ st' => m st'
    | NullDeref st' => NullDeref st'
    end.
Proof.
  revert st. induction n as [|n IH]; intros st.
  - cbn [times]. cbv [mbind M_bind mret M_ret]. by destruct (m st) as [[] ?|?].
  - change (times (S (S n)) m st) with
      (match m st with Done _ st' => times (S n) m st' | NullDeref st' => NullDeref st' end).
    change (times (S n) m st) with
      (match m st with Done _ st' => times n m st' | NullDeref st' => NullDeref st' end).
    destruct (m st) as [[] st'|st']; [apply IH|done].
Qed.

Lemma times_create_active env (k : nat) st :
  (1 ≤ factory_count_ (this st))%Z →
  times k (create env) st
  = Done tt
      (mkState (set_factory_count (this st) (factory_count_ (this st) + Z.of_nat k))
         (handler_map st) (StatusError st) (trace st)).
Proof.
  revert st. induction k as [|k IH]; intros st Hcnt.
  - replace (factory_count_ (this st) + Z.of_nat 0)%Z
      with (factory_count_ (this st)) by lia.
    by destruct st as [[desc cnt hdl fac virt] hm err tr].
  - replace (factory_count_ (this st) + Z.of_nat (S k))%Z
      with (factory_count_ (this st) + 1 + Z.of_nat k)%Z by lia.
    cbn [times]. cbv [create mbind M_bind mret M_ret].
    rewrite CreateFactory_active by lia.
    change (times k (λ st0, match CreateFactory env st0 with
                            | Done _ st' => Done () st'
                            | NullDeref st' => NullDeref st'
                            end)) with (times k (create env)).
    rewrite IH by (simpl; lia).
    by destruct st as [[desc cnt hdl fac virt] hm err tr].
Qed.

Lemma times_close_shared env (k : nat) st :
  (Z.of_nat k < factory_count_ (this st))%Z →
  times k (CloseFactory env) st
  = Done tt
      (mkState (set_factory_count (this st) (factory_count_ (this st) - Z.of_nat k))
         (handler_map st) (StatusError st) (trace st)).
Proof.
  revert st. induction k as [|k IH]; intros st Hcnt.
  - replace (factory_count_ (this st) - Z.of_nat 0)%Z
      with (factory_count_ (this st)) by lia.
    by destruct st as [[desc cnt hdl fac virt] hm err tr].
  - replace (factory_count_ (this st) - Z.of_nat (S k))%Z
      with (factory_count_ (this st) - 1 - Z.of_nat k)%Z by lia.
    cbn [times]. cbv [mbind M_bind].
    rewrite CloseFactory_shared by lia.
    rewrite IH by (simpl; lia).
    by destruct st as [[desc cnt hdl fac virt] hm err tr].
Qed.

(** The last [CloseFactory] of a driver without [no_delete] whose entry
    holds the only reference: [DriverFini] runs if the library exports
    it, the entry is erased and the handle closed. *)
Lemma CloseFactory_last_release env st h :
  driver_no_delete_ (desc_ (this st)) = false →
  factory_count_ (this st) = 1%Z →
  driver_handler_ (this st) = Some h →
  handler_map st !! h = Some (mkInfo 1 1) →
  CloseFactory env st
  = Done tt
      (mkState
         (mkDriver (desc_ (this st)) 0 None None (is_virtual_ (this st)))
         (delete h (handler_map st))
         (StatusError st)
         (trace st ++ (if sym_DriverFini env h then [EvDriverFini h] else [])
                   ++ [EvDlclose h])).
Proof.
  destruct st as [[desc cnt hdl fac virt] hm err tr]. simpl.
  intros Hnd -> -> Hentry. run_with Hentry. rewrite Hnd. run.
  destruct (sym_DriverFini env h); run_with Hentry;
    rewrite ?delete_insert_eq, <- ?app_assoc; reflexivity.
Qed.

(** X2. Reference counting is balanced. On an unloaded driver without
    [no_delete] whose library loads and initializes, [n] calls of
    [CreateFactory] followed by [n] calls of [CloseFactory] (n > 0) open
    the library once, run [DriverInit] and [CreateDriverFactory] once,
    run [DriverFini] once if it is exported, close the handle once, and
    leave the driver and the handle table exactly as they were. *)
Theorem balanced_create_close env st h init f (n : nat) :
  0 < n →
  this st = mkDriver (desc_ (this st)) 0 None None (is_virtual_ (this st)) →
  driver_no_delete_ (desc_ (this st)) = false →
  dlopen env (GetDriverFile (this st)) (mode_of (this st)) = Some h →
  handler_map st !! h = None →
  sym_DriverInit env h = Some init → Code init = STATUS_OK →
  sym_CreateDriverFactory env h = Some (Some f) →
  (times n (create env) ;; times n (CloseFactory env)) st
  = Done tt
      (mkState (this st) (handler_map st) (StatusError st)
         (trace st ++ [EvDlopen (GetDriverFile (this st)) (mode_of (this st));
                       EvDriverInit h; EvCreateDriverFactory h]
                   ++ (if sym_DriverFini env h then [EvDriverFini h] else [])
                   ++ [EvDlclose h])).
Proof.
  intros Hn Hthis Hnd Hopen Hentry Hinit Hok Hfactory.
  destruct n as [|m]; [lia|].
  assert (Hfirst := CreateFactory_fresh env st h init f).
  unfold entry_before in Hfirst. rewrite Hentry in Hfirst. simpl in Hfirst.
  specialize (Hfirst ltac:(by rewrite Hthis) Hopen eq_refl Hinit Hok Hfactory).
  change ((times (S m) (create env) ;; times (S m) (CloseFactory env)) st)
    with (match times (S m) (create env) st with
          | Done _ st' => times (S m) (CloseFactory env) st'
          | NullDeref st' => NullDeref st'
          end).
  change (times (S m) (create env) st)
    with (match create env st with
          | Done _ st' => times m (create env) st'
          | NullDeref st' => NullDeref st'
          end).
  unfold create at 1. cbv [mbind M_bind mret M_ret]. rewrite Hfirst.
  rewrite times_create_active by (simpl; lia).
  rewrite times_end. rewrite times_close_shared by (simpl; lia).
  rewrite (CloseFactory_last_release _ _ h); simpl.
  - rewrite delete_insert_eq, delete_id by done.
    rewrite <- app_assoc. simpl. by rewrite <- Hthis.
  - done.
  - lia.
  - done.
  - apply lookup_insert_eq.
Qed.

Lemma balanced_create_close_witness :
  (times 3 (create (foo_loader (Some (StatusOf STATUS_OK)) false))
   ;; times 3 (CloseFactory (foo_loader (Some (StatusOf STATUS_OK)) false)))
    (fresh_state (foo_driver false))
  = Done tt
      (mkState (foo_driver false) ∅ (StatusOf STATUS_SUCCESS)
         [EvDlopen "libmodelbox-foo.so" 2; EvDriverInit 1%positive;
          EvCreateDriverFactory 1%positive; EvDriverFini 1%positive;
          EvDlclose 1%positive]).
Proof.
  apply (balanced_create_close (foo_loader (Some (StatusOf STATUS_OK)) false)
           (fresh_state (foo_driver false)) 1%positive (StatusOf STATUS_OK)
           7%positive 3); try reflexivity. lia.
Defined.

(** X3. When [dlopen] fails, [CreateFactory] returns null and unwinds
    completely: the factory count is back at 0, no handle and no factory
    are held, the handle table is untouched, nothing is closed, and the
    loader's message is left in [StatusError] with [STATUS_INVALID]. *)
Theorem CreateFactory_dlopen_failure env st :
  factory_count_ (this st) = 0%Z →
  dlopen env (GetDriverFile (this st)) (mode_of (this st)) = None →
  let msg := ("dlopen " ++ GetDriverFile (this st) ++ " failed, error: "
              ++ dl_errmsg env)%string in
  CreateFactory env st
  = Done None
      (mkState
         (mkDriver (desc_ (this st)) 0 None None (is_virtual_ (this st)))
         (handler_map st)
         (mkStatus STATUS_INVALID msg)
         (trace st ++ [EvDlopen (GetDriverFile (this st)) (mode_of (this st));
                       EvLog msg])).
Proof.
  destruct st as [[desc cnt hdl fac virt] hm err tr]. simpl.
  intros -> Hopen. cbv [GetDriverFile mode_of desc_] in *.
  run. simpl. rewrite Hopen. run. simpl. by rewrite <- app_assoc.
Qed.

Lemma CreateFactory_dlopen_failure_witness :
  ∃ st',
    CreateFactory (foo_loader None false)
      (fresh_state (SetDriverDesc Driver_new (SetFilePath DriverDesc_new "missing.so")))
    = Done None st'
    ∧ factory_count_ (this st') = 0%Z
    ∧ handler_map st' = ∅
    ∧ Code (StatusError st') = STATUS_INVALID.
Proof.
  eexists. split.
  - apply (CreateFactory_dlopen_failure (foo_loader None false)
             (fresh_state
                (SetDriverDesc Driver_new (SetFilePath DriverDesc_new "missing.so"))));
      reflexivity.
  - repeat split.
Defined.

(** X4. Two drivers backed by one handle, neither with [no_delete]:
    created one after the other and closed one after the other, they run
    [DriverInit] once (for the first [CreateFactory]) and [DriverFini]
    once (at the last [CloseFactory]). The table entry is acquired twice
    and released once, so it stays behind with reference count 1 and
    init count 0. *)
Theorem shared_handle_init_once env st d1 d2 h init f :
  factory_count_ d1 = 0%Z → factory_count_ d2 = 0%Z →
  driver_no_delete_ (desc_ d1) = false → driver_no_delete_ (desc_ d2) = false →
  dlopen env (GetDriverFile d1) (mode_of d1) = Some h →
  dlopen env (GetDriverFile d2) (mode_of d2) = Some h →
  handler_map st !! h = None →
  sym_DriverInit env h = Some init → Code init = STATUS_OK →
  sym_CreateDriverFactory env h = Some (Some f) →
  ∃ s1 s2 s3 s4,
    CreateFactory env (with_this st d1) = Done (Some f) s1
    ∧ CreateFactory env (with_this s1 d2) = Done (Some f) s2
    ∧ CloseFactory env (with_this s2 (this s1)) = Done tt s3
    ∧ CloseFactory env (with_this s3 (this s2)) = Done tt s4
    ∧ trace s4
      = trace st
        ++ [EvDlopen (GetDriverFile d1) (mode_of d1); EvDriverInit h;
            EvCreateDriverFactory h;
            EvDlopen (GetDriverFile d2) (mode_of d2); EvCreateDriverFactory h;
            EvDlclose h]
        ++ (if sym_DriverFini env h then [EvDriverFini h] else [])
        ++ [EvDlclose h]
    ∧ handler_map s4 = <[h := mkInfo 1 0]> (handler_map st).
Proof.
  destruct st as [d0 hm err tr].
  destruct d1 as [desc1 cnt1 hdl1 fac1 virt1], d2 as [desc2 cnt2 hdl2 fac2 virt2].
  cbv [GetDriverFile mode_of desc_]. simpl.
  intros -> -> Hnd1 Hnd2 Hopen1 Hopen2 Hentry Hinit Hok Hfactory.
  assert (Hst : status_is init STATUS_OK = true).
  { unfold status_is. by rewrite bool_decide_eq_true_2. }
  destruct (sym_DriverFini env h) eqn:Hfini;
    (eexists _, _, _, _; (split; [|split; [|split; [|split]]]);
     [run; simpl; rewrite Hopen1; run_with Hentry; rewrite Hinit; run;
      rewrite Hst; run; rewrite Hfactory; run; reflexivity
     |run; simpl; rewrite Hopen2; run_with Hentry; rewrite Hfactory; run; reflexivity
     |run_with Hentry; reflexivity
     |run_with Hentry; rewrite Hnd2; run; rewrite Hfini; run_with Hentry; reflexivity
     |simpl; split; rewrite <- ?app_assoc, ?Hnd2; simpl; try reflexivity;
      rewrite ?delete_insert_eq, ?insert_insert_eq; try reflexivity]).
Qed.

Lemma shared_handle_init_once_witness :
  ∃ s1 s2 s3 s4,
    CreateFactory (foo_loader (Some (StatusOf STATUS_OK)) false)
      (with_this (fresh_state Driver_new) (foo_driver false)) = Done (Some 7%positive) s1
    ∧ CreateFactory (foo_loader (Some (StatusOf STATUS_OK)) false)
        (with_this s1 (foo_driver false)) = Done (Some 7%positive) s2
    ∧ CloseFactory (foo_loader (Some (StatusOf STATUS_OK)) false)
        (with_this s2 (this s1)) = Done tt s3
    ∧ CloseFactory (foo_loader (Some (StatusOf STATUS_OK)) false)
        (with_this s3 (this s2)) = Done tt s4
    ∧ handler_map s4 = <[1%positive := mkInfo 1 0]> ∅.
Proof.
  destruct (shared_handle_init_once (foo_loader (Some (StatusOf STATUS_OK)) false)
              (fresh_state Driver_new) (foo_driver false) (foo_driver false)
              1%positive (StatusOf STATUS_OK) 7%positive)
    as (s1 & s2 & s3 & s4 & H1 & H2 & H3 & H4 & _ & Hmap); try reflexivity.
  by exists s1, s2, s3, s4.
Defined.

(** X5. An unmatched [CloseFactory] is not refused. On an unloaded driver
    it takes the factory count to -1 without touching the loader, and the
    next [CreateFactory] only brings the count back to 0: it opens
    nothing, calls nothing, reports no error and returns a null factory. *)
Theorem unmatched_CloseFactory_disables_next_create env st :
  factory_count_ (this st) = 0%Z →
  driver_handler_ (this st) = None →
  ∃ st1,
    CloseFactory env st = Done tt st1
    ∧ factory_count_ (this st1) = (-1)%Z
    ∧ CreateFactory env st1
      = Done None
          (mkState (mkDriver (desc_ (this st)) 0 None None (is_virtual_ (this st)))
             (handler_map st) (StatusError st) (trace st)).
Proof.
  destruct st as [[desc cnt hdl fac virt] hm err tr]. simpl. intros -> ->.
  eexists. split; [run; reflexivity|]. split; [reflexivity|]. run. reflexivity.
Qed.

Lemma unmatched_CloseFactory_disables_next_create_witness :
  ∃ st1,
    CloseFactory (foo_loader (Some (StatusOf STATUS_OK)) false)
      (fresh_state (foo_driver false)) = Done tt st1
    ∧ CreateFactory (foo_loader (Some (StatusOf STATUS_OK)) false) st1
      = Done None (fresh_state (foo_driver false)).
Proof.
  destruct (unmatched_CloseFactory_disables_next_create
              (foo_loader (Some (StatusOf STATUS_OK)) false)
              (fresh_state (foo_driver false)))
    as (st1 & Hclose & _ & Hcreate); try reflexivity.
  by exists st1.
Defined.

Lemma CreateFactory_failed_factory_releases_entry_witness :
  ∃ st',
    CreateFactory
      (mkLoader (fun _ _ => Some 1%positive) None
         (fun _ => Some (StatusOf STATUS_OK)) (fun _ => true)
         (fun _ => Some None) (fun _ => None))
      (fresh_state (foo_driver false)) = Done None st'
    ∧ factory_count_ (this st') = 0%Z
    ∧ handler_map st' !! 1%positive = None.
Proof.
  destruct (CreateFactory_failed_factory_releases_entry
              (mkLoader (fun _ _ => Some 1%positive) None
                 (fun _ => Some (StatusOf STATUS_OK)) (fun _ => true)
                 (fun _ => Some None) (fun _ => None))
              (fresh_state (foo_driver false)) 1%positive (StatusOf STATUS_OK))
    as (st' & Hrun & Hcnt & _ & _ & Hentry); try reflexivity; [by right|].
  by exists st'.
Defined.

Lemma CloseFactory_no_delete_no_fini_witness :
  ∃ st' evs,
    CloseFactory (foo_loader (Some (StatusOf STATUS_OK)) true) active_foo_state
      = Done tt st'
    ∧ trace st' = trace active_foo_state ++ evs
    ∧ Forall (λ e, is_DriverFini e = false) evs.
Proof.
  assert (Hclose :
    CloseFactory (foo_loader (Some (StatusOf STATUS_OK)) true) active_foo_state
    = Done tt
        (mkState (mkDriver (desc_ (foo_driver true)) 0 None None false)
           (<[1%positive := mkInfo 1 1]> {[ 1%positive := mkInfo 1 1 ]})
           (StatusOf STATUS_SUCCESS)
           (trace active_foo_state ++ [EvDlclose 1%positive]))) by reflexivity.
  destruct (CloseFactory_no_delete_no_fini
              (foo_loader (Some (StatusOf STATUS_OK)) true) active_foo_state tt _
              eq_refl Hclose) as (evs & Ht & Hf).
  eexists _, evs. split; [exact Hclose|]. by split.
Defined.

(** X6. The load mode [GetMode] computes holds [RTLD_NOW] and never
    [RTLD_LAZY], and each of the three flags of the descriptor switches
    exactly its own bit: [RTLD_NODELETE] for [no_delete], [RTLD_GLOBAL]
    for [global], [RTLD_DEEPBIND] for [deep_bind]. No other bit is set, so
    different flags give different modes. *)
Theorem GetMode_flags (no_delete global deep_bind : bool) :
  let mode := GetMode no_delete global deep_bind in
  Z.land mode RTLD_NOW = RTLD_NOW
  ∧ Z.land mode RTLD_LAZY = 0%Z
  ∧ (Z.land mode RTLD_NODELETE = RTLD_NODELETE ↔ no_delete = true)
  ∧ (Z.land mode RTLD_GLOBAL = RTLD_GLOBAL ↔ global = true)
  ∧ (Z.land mode RTLD_DEEPBIND = RTLD_DEEPBIND ↔ deep_bind = true)
  ∧ mode = (RTLD_NOW + (if no_delete then RTLD_NODELETE else 0)
            + (if global then RTLD_GLOBAL else 0)
            + (if deep_bind then RTLD_DEEPBIND else 0))%Z
  ∧ ∀ no_delete' global' deep_bind',
      GetMode no_delete' global' deep_bind' = mode →
      no_delete' = no_delete ∧ global' = global ∧ deep_bind' = deep_bind.
Proof.
  destruct no_delete, global, deep_bind; cbv zeta;
    repeat apply conj; try reflexivity;
    try (intros [] [] []; vm_compute; intros H; try discriminate H; by repeat split);
    intros H; try reflexivity; vm_compute in H; discriminate H.
Qed.

(** X7. [DriverHandler::Add] then [DriverHandler::Remove] is a round
    trip. [Add] never fails: it leaves the handle with one more reference
    and its init count as it was (0 for a new entry), and touches no
    other handle. [Remove] right after it gives back the table as it was,
    a new entry being erased again, provided an entry that was there
    held a reference. *)
Theorem DriverHandler_Add_Remove h st :
  ∃ st1,
    DriverHandler_Add h st = Done tt st1
    ∧ handler_map st1 !! h
      = Some (mkInfo (handler_refcnt_ (entry_before st h) + 1)
                (initialize_count_ (entry_before st h)))
    ∧ (∀ h', h' ≠ h → handler_map st1 !! h' = handler_map st !! h')
    ∧ ((∀ info, handler_map st !! h = Some info → handler_refcnt_ info ≠ 0%Z) →
       DriverHandler_Remove h st1 = Done (StatusOf STATUS_SUCCESS) st).
Proof.
  destruct st as [d hm err tr]. unfold entry_before. simpl.
  destruct (hm !! h) as [[rc ic]|] eqn:Hentry.
  - eexists. split; [run_with Hentry; reflexivity|]. simpl.
    split; [apply lookup_insert_eq|]. split; [intros h' Hne; by apply lookup_insert_ne|].
    intros Hrc. specialize (Hrc _ eq_refl). simpl in Hrc. run_with Hentry.
    destruct (Z.eqb_spec (rc + 1 - 1) 0) as [?|_]; [lia|]. run.
    rewrite insert_insert_eq. replace (rc + 1 - 1)%Z with rc by lia.
    by rewrite insert_id.
  - eexists. split; [run_with Hentry; reflexivity|]. simpl.
    split; [apply lookup_insert_eq|]. split; [intros h' Hne; by apply lookup_insert_ne|].
    intros _. run_with Hentry.
    by rewrite insert_insert_eq, delete_insert_eq, delete_id.
Qed.

End Lifecycle.

(** ** Validity of the scan cache *)

Section CacheValidity.

Implicit Types (fs : FileSystem) (file_map : gset string) (dirs files : list string).

Lemma wrap_int64_add_l (a b : Z) :
  wrap_int64 (wrap_int64 a + b) = wrap_int64 (a + b).
Proof.
  unfold wrap_int64.
  replace ((a + 2 ^ 63) `mod` 2 ^ 64 - 2 ^ 63 + b + 2 ^ 63)%Z
    with ((a + 2 ^ 63) `mod` 2 ^ 64 + b)%Z by lia.
  rewrite Z.add_mod_idemp_l by lia. f_equal. f_equal. lia.
Qed.

(** Adding up [int64_t]s one by one is the wrapped sum. *)
Lemma fold_int64_add (l : list Z) (z : Z) :
  fold_left int64_add l (wrap_int64 z) = wrap_int64 (z + foldr Z.add 0 l)%Z.
Proof.
  revert z. induction l as [|x l IH]; intros z; simpl.
  - by rewrite Z.add_0_r.
  - unfold int64_add at 2. rewrite wrap_int64_add_l, IH. f_equal. lia.
Qed.

Lemma check_files_Some fs file_map files (check_sum s : Z) :
  check_files fs file_map files check_sum = Some s ↔
  (∀ f, f ∈ regular_files fs files → f ∈ file_map)
  ∧ s = fold_left int64_add (List.map (mtime_of fs) (regular_files fs files)) check_sum.
Proof.
  revert check_sum. induction files as [|f files IH]; intros check_sum; simpl.
  { split.
    - intros [= <-]. split; [|done]. intros f Hf. by apply elem_of_nil in Hf.
    - by intros [_ ->]. }
  destruct (fs_lstat fs f) as [buf|] eqn:Hstat; [|apply IH].
  destruct (S_ISLNK buf); simpl; [apply IH|].
  replace (mtime_of fs f) with (st_mtim buf) by (unfold mtime_of; by rewrite Hstat).
  case_bool_decide as Hin.
  - split; [done|]. intros [Hall _]. destruct Hin. apply Hall, elem_of_cons. by left.
  - rewrite IH. split.
    + intros [Hall ->]. split; [|done].
      intros g [->|Hg]%elem_of_cons; [done|by apply Hall].
    + intros [Hall ->]. split; [|done].
      intros g Hg. apply Hall, elem_of_cons. by right.
Qed.

Lemma check_dirs_Some fs file_map dirs (check_sum s : Z) :
  check_dirs fs file_map dirs check_sum = Some s ↔
  dirs_readable fs dirs
  ∧ (∀ f, f ∈ flat_map (files_in_dir fs) dirs → f ∈ file_map)
  ∧ s = fold_left int64_add (flat_map (mtimes_of_dir fs) dirs) check_sum.
Proof.
  unfold dirs_readable.
  revert check_sum. induction dirs as [|dir dirs IH]; intros check_sum; simpl.
  { split.
    - intros [= <-]. split; [constructor|]. split; [|done].
      intros f Hf. by apply elem_of_nil in Hf.
    - by intros (_ & _ & ->). }
  rewrite Forall_cons. unfold files_in_dir at 1, mtimes_of_dir at 1.
  destruct (fs_lstat fs dir) as [s0|] eqn:Hstat.
  2:{ split; [done|]. by intros ([(? & ? & _) _] & _). }
  destruct (S_ISDIR s0) eqn:Hdir; simpl.
  - replace (files_in_dir fs dir)
      with (regular_files fs (snd (fs_ListFiles fs dir driver_filter)))
      by (unfold files_in_dir; by rewrite Hstat, Hdir).
    destruct (fs_ListFiles fs dir driver_filter) as [status drivers_list] eqn:Hlist.
    simpl. unfold status_is. case_bool_decide as Hok; simpl.
    2:{ split; [done|]. intros ([(s1 & [= <-] & Hs1) _] & _). by destruct Hok; apply Hs1. }
    assert (Hgo : ∀ s',
      check_files fs file_map drivers_list check_sum = Some s' →
      (check_dirs fs file_map dirs s' = Some s ↔
       ((∃ s1, Some s0 = Some s1 ∧ (S_ISDIR s1 = true → Code status = STATUS_OK))
        ∧ Forall (λ dir0, ∃ s1, fs_lstat fs dir0 = Some s1
                    ∧ (S_ISDIR s1 = true →
                       Code (fst (fs_ListFiles fs dir0 driver_filter)) = STATUS_OK))
            dirs)
       ∧ (∀ f, f ∈ regular_files fs drivers_list ++ flat_map (files_in_dir fs) dirs →
               f ∈ file_map)
       ∧ s = fold_left int64_add
               (List.map (mtime_of fs) (regular_files fs drivers_list)
                ++ flat_map (mtimes_of_dir fs) dirs) check_sum)).
    { intros s' [Hall ->]%check_files_Some. rewrite IH, fold_left_app. split.
      - intros (Hrd & Hsub & ->). split; [split; [eauto|done]|]. split; [|done].
        intros f [Hf|Hf]%elem_of_app; [by apply Hall|by apply Hsub].
      - intros ([_ Hrd] & Hsub & ->). split; [done|]. split; [|done].
        intros f Hf. apply Hsub, elem_of_app. by right. }
    destruct drivers_list as [|f0 rest]; simpl length; cbn [Nat.eqb].
    + apply (Hgo check_sum). done.
    + destruct (check_files fs file_map (f0 :: rest) check_sum) as [s'|] eqn:Hfiles.
      * by apply Hgo.
      * split; [done|]. intros (_ & Hsub & _). exfalso.
        assert (Hsome : check_files fs file_map (f0 :: rest) check_sum
                        = Some (fold_left int64_add
                                  (List.map (mtime_of fs) (regular_files fs (f0 :: rest)))
                                  check_sum)).
        { apply check_files_Some. split; [|done].
          intros f Hf. apply Hsub, elem_of_app. by left. }
        congruence.
  - rewrite IH. simpl. split.
    + intros (Hrd & Hsub & ->). split; [split; [|done]|done].
      exists s0. split; [done|]. congruence.
    + by intros ([_ Hrd] & Hsub & ->).
Qed.

(** The file set [FillCheckInfo] collects is the set of the ["file_path"]
    members of the cached entries. *)
Lemma fill_file_map_elem (driver_json_arr : list json) file_map file_map' :
  fill_file_map driver_json_arr file_map = Some file_map' →
  ∀ p, p ∈ file_map' ↔
       p ∈ file_map
       ∨ ∃ e, e ∈ driver_json_arr ∧ json_at "file_path" e ≫= get_string = Some p.
Proof.
  revert file_map. induction driver_json_arr as [|e arr IH]; intros file_map; simpl.
  { intros [= <-] p. split; [by left|].
    intros [?|(e & He & _)]; [done|by apply elem_of_nil in He]. }
  destruct (json_at "file_path" e ≫= get_string) as [q|] eqn:Hq; [|done]. simpl.
  case_bool_decide as Hin; intros Hfill p; rewrite (IH _ Hfill p); split.
  - intros [?|(e' & He' & Hp)]; [by left|].
    right. exists e'. split; [by apply elem_of_cons; right|done].
  - intros [?|(e' & [->|He']%elem_of_cons & Hp)]; [by left| |by right; eauto].
    left. congruence.
  - intros [[->%elem_of_singleton|?]%elem_of_union|(e' & He' & Hp)].
    + right. exists e. split; [by apply elem_of_cons; left|done].
    + by left.
    + right. exists e'. split; [by apply elem_of_cons; right|done].
  - intros [?|(e' & [->|He']%elem_of_cons & Hp)].
    + left. apply elem_of_union. by right.
    + left. apply elem_of_union. left. apply elem_of_singleton. congruence.
    + right. eauto.
Qed.

Lemma elem_of_scanned_files fs dirs f :
  f ∈ scanned_files fs dirs ↔ f ∈ flat_map (files_in_dir fs) dirs.
Proof. unfold scanned_files. by rewrite elem_of_list_to_set. Qed.

Lemma summed_mtimes_fold fs dirs :
  fold_left int64_add (flat_map (mtimes_of_dir fs) dirs) 0%Z = summed_mtimes fs dirs.
Proof.
  unfold summed_mtimes.
  pose proof (fold_int64_add (flat_map (mtimes_of_dir fs) dirs) 0) as H.
  rewrite Z.add_0_l in H. exact H.
Qed.

(** C6, as the code has it. With the cache readable, it is declared
    valid exactly when: the cache file and the linker cache exist and the
    linker cache has the cached mtime; every configured entry can be
    inspected and every directory listed; every scanned regular file is in
    the cached file set; and the check code of the summed mtimes is the
    cached one. Whether every cached path is still there is not looked at. *)
Theorem CheckPathAndMagicCode_valid_iff (GenerateKey : Z → string) fs (ds : Drivers)
    (file_check_node : string) file_map (ld_cache_time : Z) :
  FillCheckInfo fs ∅ = Some (file_check_node, file_map, ld_cache_time) →
  CheckPathAndMagicCode GenerateKey fs ds = Some true ↔
  is_Some (fs_stat fs DEFAULT_SCAN_INFO)
  ∧ (∃ buffer, fs_stat fs DEFAULT_LD_CACHE = Some buffer
               ∧ st_mtim buffer = ld_cache_time)
  ∧ dirs_readable fs (driver_dirs_ ds)
  ∧ scanned_files fs (driver_dirs_ ds) ⊆ file_map
  ∧ GenerateKey (summed_mtimes fs (driver_dirs_ ds)) = file_check_node.
Proof.
  intros Hfill. unfold CheckPathAndMagicCode.
  destruct (fs_stat fs DEFAULT_SCAN_INFO) as [info|].
  2:{ split; [done|]. by intros [[? [=]] _]. }
  destruct (fs_stat fs DEFAULT_LD_CACHE) as [buffer|].
  2:{ split; [done|]. by intros (_ & (? & [=] & _) & _). }
  rewrite Hfill. simpl.
  destruct (Z.eqb_spec ld_cache_time (st_mtim buffer)) as [Hld|Hld]; simpl.
  2:{ split; [done|]. intros (_ & (? & [= <-] & ?) & _). done. }
  destruct (check_dirs fs file_map (driver_dirs_ ds) 0) as [check_sum|] eqn:Hdirs.
  - apply check_dirs_Some in Hdirs as (Hrd & Hsub & ->).
    rewrite summed_mtimes_fold.
    destruct (String.eqb_spec file_check_node
                (GenerateKey (summed_mtimes fs (driver_dirs_ ds)))) as [Hcode|Hcode];
      simpl.
    + split; [|done]. intros _. split; [eauto|]. split; [eauto|]. split; [done|].
      split; [|done]. intros f Hf%elem_of_scanned_files. by apply Hsub.
    + split; [done|]. intros (_ & _ & _ & _ & ?). done.
  - split; [done|]. intros (_ & _ & Hrd & Hsub & _). exfalso.
    assert (Hsome : check_dirs fs file_map (driver_dirs_ ds) 0
                    = Some (fold_left int64_add
                              (flat_map (mtimes_of_dir fs) (driver_dirs_ ds)) 0%Z)).
    { apply check_dirs_Some. split; [done|]. split; [|done].
      intros f Hf. by apply Hsub, elem_of_scanned_files. }
    congruence.
Qed.

Example later_fs_cache :
  FillCheckInfo later_fs ∅ = Some (decimal_key 30, {[lib_b]} ∪ ({[lib_a]} ∪ ∅), 50%Z).
Proof. reflexivity. Qed.

Lemma CheckPathAndMagicCode_valid_iff_witness :
  CheckPathAndMagicCode decimal_key later_fs scanned_registry = Some true
  ∧ dirs_readable later_fs (driver_dirs_ scanned_registry)
  ∧ scanned_files later_fs (driver_dirs_ scanned_registry) ⊆ {[lib_b]} ∪ ({[lib_a]} ∪ ∅).
Proof.
  pose proof (CheckPathAndMagicCode_valid_iff decimal_key later_fs scanned_registry
                (decimal_key 30) _ 50%Z later_fs_cache) as [Hvalid _].
  destruct (Hvalid eq_refl) as (_ & _ & Hrd & Hsub & _).
  split; [reflexivity|]. split; [exact Hrd|exact Hsub].
Defined.

(** C6, as claimed: validity would also require the cached and the
    scanned file sets to coincide. It does not: [lib_b] is in the cache
    and gone from the directory, the mtimes still add up to the cached
    sum, and the cache is declared valid. *)
Lemma CheckPathAndMagicCode_accepts_missing_file :
  ¬ (∀ (GenerateKey : Z → string) fs (ds : Drivers)
       (file_check_node : string) file_map (ld_cache_time : Z),
       FillCheckInfo fs ∅ = Some (file_check_node, file_map, ld_cache_time) →
       CheckPathAndMagicCode GenerateKey fs ds = Some true ↔
       is_Some (fs_stat fs DEFAULT_SCAN_INFO)
       ∧ (∃ buffer, fs_stat fs DEFAULT_LD_CACHE = Some buffer
                    ∧ st_mtim buffer = ld_cache_time)
       ∧ file_map = scanned_files fs (driver_dirs_ ds)
       ∧ GenerateKey (summed_mtimes fs (driver_dirs_ ds)) = file_check_node).
Proof.
  intros Hclaim.
  destruct (Hclaim decimal_key later_fs scanned_registry
              (decimal_key 30) _ 50%Z later_fs_cache) as [Hvalid _].
  destruct (Hvalid eq_refl) as (_ & _ & Hsets & _).
  assert (Hb : lib_b ∈ ({[lib_b]} ∪ ({[lib_a]} ∪ ∅) : gset string)) by set_solver.
  rewrite Hsets in Hb. apply elem_of_scanned_files in Hb.
  vm_compute in Hb. repeat (apply elem_of_cons in Hb as [Hb|Hb]; [discriminate Hb|]).
  by apply elem_of_nil in Hb.
Qed.

End CacheValidity.

(** ** The scan cache round trip *)

Section RoundTrip.

Implicit Types (fs : FileSystem) (ds : Drivers) (d : Driver).









(** C4. Writing the cache and reading it back is claimed to give the same
    set of (class, type, name, version, description) tuples. It does not
    when two versions of one driver are registered, which [Add] allows:
    [GatherScanInfo] asks [GetDriver] whether the driver is already there,
    and [GetDriver] answers with the other version. Of ["10.0.0"] and
    ["2.0.0"] only the first comes back. *)
Theorem round_trip_drops_second_version fs (check_code : string) :
  fs_can_write fs DEFAULT_SCAN_INFO = true →
  List.map identity_tuple (drivers_list_ two_versions)
    = [("cpu", "x", "foo", "10.0.0", ""); ("cpu", "x", "foo", "2.0.0", "")]
  ∧ ∃ ds',
      round_trip fs check_code two_versions = Some (StatusOf STATUS_OK, ds')
      ∧ List.map identity_tuple (drivers_list_ ds')
        = [("cpu", "x", "foo", "10.0.0", "")].
Proof.
  intros Hw. split; [reflexivity|].
  unfold round_trip, WriteScanInfo. rewrite Hw. simpl.
  unfold GatherScanInfo, scan_info_document. simpl.
  destruct (fs_stat fs DEFAULT_LD_CACHE); eexists; split; reflexivity.
Qed.

Lemma round_trip_drops_second_version_witness :
  ∃ ds',
    round_trip later_fs "30" two_versions = Some (StatusOf STATUS_OK, ds')
    ∧ List.map identity_tuple (drivers_list_ ds')
      = [("cpu", "x", "foo", "10.0.0", "")].
Proof.
  apply (round_trip_drops_second_version later_fs "30"). reflexivity.
Defined.

End RoundTrip.

(** ** More on the registry *)

Section Registry.

Implicit Types (env : Loader) (fs : FileSystem) (ds : Drivers) (d : Driver)
  (file : string).

(** [Add], by cases on the candidate driver. *)
Lemma Add_result env file ds :
  let status := fst (fst (Add env file ds)) in
  let ds' := snd (fst (Add env file ds)) in
  match add_candidate env file with
  | None => Code status ≠ STATUS_OK ∧ ds' = ds
  | Some driver =>
      if DriversContains (drivers_list_ ds) driver
      then Code status = STATUS_EXIST ∧ ds' = ds
      else Code status = STATUS_OK
           ∧ ds' = set_drivers_list ds (drivers_list_ ds ++ [stamped driver file])
  end.
Proof.
  cbv zeta. unfold Add, add_candidate.
  destruct (dlopen env file (Z.lor RTLD_LAZY RTLD_LOCAL)) as [h|]; [|done].
  destruct (sym_DriverDescription env h) as [describe|]; [|done].
  simpl.
  by destruct (DriversContains (drivers_list_ ds)
                 (SetDriverDesc Driver_new (describe DriverDesc_new))).
Qed.

Lemma identity_tuple_stamped d file :
  identity_tuple (stamped d file) = identity_tuple d.
Proof. by destruct d as [[] ? ? ? ?]. Qed.

(** [Add] never stores a second driver with a tuple already held. *)
Lemma Add_NoDup env file ds :
  NoDup (List.map identity_tuple (drivers_list_ ds)) →
  NoDup (List.map identity_tuple (drivers_list_ (snd (fst (Add env file ds))))).
Proof.
  intros Hnodup. pose proof (Add_result env file ds) as H. cbv zeta in H.
  destruct (add_candidate env file) as [driver|]; [|by destruct H as [_ ->]].
  destruct (DriversContains (drivers_list_ ds) driver) eqn:Hdup;
    destruct H as [_ ->]; [done|].
  simpl. rewrite map_app. simpl. apply NoDup_app. split; [done|].
  split; [|apply NoDup_singleton].
  intros t Ht ->%list_elem_of_singleton.
  rewrite identity_tuple_stamped in Ht.
  apply list_elem_of_In, in_map_iff in Ht as (d & Hd & Hin).
  assert (DriversContains (drivers_list_ ds) driver = true); [|congruence].
  apply DriversContains_spec. exists d. split; [by apply list_elem_of_In|done].
Qed.

(** X8. [Add] keeps the registry free of duplicates: if no two drivers
    share the (class, type, name, version, description) tuple before, none
    do afterwards, whatever the file holds. *)
Theorem Add_keeps_tuples_distinct env file ds :
  NoDup (List.map identity_tuple (drivers_list_ ds)) →
  NoDup (List.map identity_tuple (drivers_list_ (snd (fst (Add env file ds))))).
Proof. apply Add_NoDup. Qed.

Lemma Add_keeps_tuples_distinct_witness :
  NoDup (List.map identity_tuple
           (drivers_list_
              (snd (fst (Add (foo_loader None false) "libmodelbox-foo.so" two_versions))))).
Proof.
  apply (Add_keeps_tuples_distinct (foo_loader None false) "libmodelbox-foo.so"
           two_versions).
  apply NoDup_cons. split; [|apply NoDup_singleton].
  intros Hin%list_elem_of_singleton. discriminate Hin.
Defined.

(** X9. Adding a file twice registers it once: after a successful [Add],
    adding the same file again returns "already registered" and leaves
    the registry unchanged. *)
Theorem Add_same_file_twice env file ds :
  Code (fst (fst (Add env file ds))) = STATUS_OK →
  let ds' := snd (fst (Add env file ds)) in
  Code (fst (fst (Add env file ds'))) = STATUS_EXIST
  ∧ snd (fst (Add env file ds')) = ds'.
Proof.
  intros Hok. cbv zeta.
  pose proof (Add_result env file ds) as H1. cbv zeta in H1.
  pose proof (Add_result env file (snd (fst (Add env file ds)))) as H2. cbv zeta in H2.
  destruct (add_candidate env file) as [driver|]; [|by destruct H1].
  destruct (DriversContains (drivers_list_ ds) driver); destruct H1 as [Hc Hds].
  { rewrite Hok in Hc. discriminate Hc. }
  assert (Hdup : DriversContains (drivers_list_ (snd (fst (Add env file ds))))
                   driver = true).
  { apply DriversContains_spec. exists (stamped driver file). split.
    - rewrite Hds. simpl. apply elem_of_app. right. by apply list_elem_of_singleton.
    - apply identity_tuple_stamped. }
  rewrite Hdup in H2. exact H2.
Qed.

Lemma Add_same_file_twice_witness :
  let ds' := snd (fst (Add (foo_loader None false) "libmodelbox-foo.so" Drivers_new)) in
  Code (fst (fst (Add (foo_loader None false) "libmodelbox-foo.so" ds'))) = STATUS_EXIST
  ∧ snd (fst (Add (foo_loader None false) "libmodelbox-foo.so" ds')) = ds'.
Proof.
  apply (Add_same_file_twice (foo_loader None false) "libmodelbox-foo.so" Drivers_new).
  reflexivity.
Defined.

(** Any registered driver is found under its own identity and version. *)
Lemma GetDriver_finds_registered ds d :
  d ∈ drivers_list_ ds →
  ∃ r, GetDriver ds (driver_class_ (desc_ d)) (driver_type_ (desc_ d))
         (driver_name_ (desc_ d)) (driver_version_ (desc_ d)) = Some r
       ∧ name_triple r = name_triple d ∧ version_of r = version_of d.
Proof.
  intros Hd.
  destruct (GetDriver_loop_exact (drivers_list_ ds) (driver_class_ (desc_ d))
              (driver_type_ (desc_ d)) (driver_name_ (desc_ d))
              (driver_version_ (desc_ d)) None)
    as (l1 & r & l2 & _ & Hr & (Hc & Ht & Hn) & Hv & _).
  { exists d. by repeat split. }
  exists r. split; [exact Hr|]. split; [|exact Hv].
  unfold name_triple. by rewrite Hc, Ht, Hn.
Qed.

(** X10. What [Add] registers can be looked up: after a successful [Add]
    the registry ends with a driver carrying the file's path, and
    [GetDriver] with that driver's class, type, name and version returns
    a driver of exactly that identity and version. *)
Theorem Add_then_GetDriver env file ds :
  Code (fst (fst (Add env file ds))) = STATUS_OK →
  let ds' := snd (fst (Add env file ds)) in
  ∃ d r,
    drivers_list_ ds' = drivers_list_ ds ++ [d]
    ∧ driver_file_path_ (desc_ d) = file
    ∧ GetDriver ds' (driver_class_ (desc_ d)) (driver_type_ (desc_ d))
        (driver_name_ (desc_ d)) (driver_version_ (desc_ d)) = Some r
    ∧ name_triple r = name_triple d ∧ version_of r = version_of d.
Proof.
  intros Hok. cbv zeta.
  pose proof (Add_result env file ds) as H. cbv zeta in H.
  destruct (add_candidate env file) as [driver|]; [|by destruct H].
  destruct (DriversContains (drivers_list_ ds) driver); destruct H as [Hc Hds].
  { rewrite Hok in Hc. discriminate Hc. }
  rewrite Hds.
  destruct (GetDriver_finds_registered
              (set_drivers_list ds (drivers_list_ ds ++ [stamped driver file]))
              (stamped driver file)) as (r & Hr & Hid & Hv).
  { simpl. apply elem_of_app. right. by apply list_elem_of_singleton. }
  exists (stamped driver file), r. by repeat split.
Qed.

Lemma Add_then_GetDriver_witness :
  ∃ r,
    GetDriver (snd (fst (Add (foo_loader None false) "libmodelbox-foo.so" Drivers_new)))
      "cpu" "x" "foo" "1.2.3" = Some r
    ∧ driver_file_path_ (desc_ r) = "libmodelbox-foo.so".
Proof.
  destruct (Add_then_GetDriver (foo_loader None false) "libmodelbox-foo.so" Drivers_new)
    as (d & r & _ & _ & _ & _ & _); [reflexivity|].
  eexists. split; reflexivity.
Defined.

(** *** Scanning *)

Lemma grew_from_refl ds : grew_from ds ds.
Proof.
  split; [done|]. split; [exists []; by rewrite app_nil_r|]. by split.
Qed.

Lemma grew_from_trans ds1 ds2 ds3 :
  grew_from ds1 ds2 → grew_from ds2 ds3 → grew_from ds1 ds3.
Proof.
  intros (Hd1 & [n1 Hl1] & Hn1 & Hr1) (Hd2 & [n2 Hl2] & Hn2 & Hr2).
  split; [congruence|]. split.
  - exists (n1 ++ n2). by rewrite Hl2, Hl1, app_assoc.
  - split; [auto|]. intros f Hf. by apply Hr2, Hr1.
Qed.

Lemma map_emplace_keys (key value : string) (m : list (string * string)) :
  key ∈ List.map fst (map_emplace key value m)
  ∧ ∀ k, k ∈ List.map fst m → k ∈ List.map fst (map_emplace key value m).
Proof.
  induction m as [|[k v] m [IH1 IH2]]; simpl.
  { split; [apply elem_of_cons; by left|]. intros k Hk. by apply elem_of_nil in Hk. }
  destruct (String.eqb_spec k key) as [->|Hne]; simpl.
  { split; [apply elem_of_cons; by left|done]. }
  destruct (String.ltb key k); simpl.
  - split; [apply elem_of_cons; by left|]. intros k' Hk'. apply elem_of_cons. by right.
  - split; [apply elem_of_cons; by right|].
    intros k' [->|Hk']%elem_of_cons; apply elem_of_cons; [by left|right; by apply IH2].
Qed.

(** One file of a scan: [Add] and the bookkeeping that follows it. *)
Lemma Add_recorded env file ds :
  let status := fst (fst (Add env file ds)) in
  let ds1 := snd (fst (Add env file ds)) in
  let ds' := record_scan_result file status ds1 in
  grew_from ds ds'
  ∧ file ∈ recorded_files ds'
  ∧ last_modify_time_sum_ ds' = last_modify_time_sum_ ds.
Proof.
  cbv zeta. pose proof (Add_NoDup env file ds) as Hnodup.
  pose proof (Add_result env file ds) as H. cbv zeta in H.
  unfold record_scan_result, status_is, recorded_files.
  assert (Hfail : ∀ status, Code status ≠ STATUS_OK →
    let ds' := set_load_failed_info ds
                 (map_emplace file (Errormsg status) (load_failed_info ds)) in
    grew_from ds ds'
    ∧ file ∈ List.map (λ d, driver_file_path_ (desc_ d)) (drivers_list_ ds')
             ++ List.map fst (load_failed_info ds')
    ∧ last_modify_time_sum_ ds' = last_modify_time_sum_ ds).
  { intros status _. cbv zeta. simpl.
    destruct (map_emplace_keys file (Errormsg status) (load_failed_info ds))
      as [Hkey Hkeys].
    split; [|split; [apply elem_of_app; by right|done]].
    split; [done|]. split; [exists []; by rewrite app_nil_r|]. split; [done|].
    unfold recorded_files. simpl. intros f [Hf|Hf]%elem_of_app; apply elem_of_app;
      [by left|right; by apply Hkeys]. }
  destruct (add_candidate env file) as [driver|].
  2:{ destruct H as [Hc Hds]. rewrite Hds in *.
      rewrite bool_decide_eq_false_2 by done. by apply Hfail. }
  destruct (DriversContains (drivers_list_ ds) driver); destruct H as [Hc Hds];
    rewrite Hds in *.
  - rewrite bool_decide_eq_false_2 by (rewrite Hc; done).
    apply Hfail. by rewrite Hc.
  - rewrite bool_decide_eq_true_2 by done. simpl.
    split; [|split; [|done]].
    + split; [done|]. split; [by eexists|]. split; [done|].
      unfold recorded_files. simpl. intros f [Hf|Hf]%elem_of_app; apply elem_of_app;
        [left|by right]. rewrite map_app. apply elem_of_app. by left.
    + apply elem_of_app. left. rewrite map_app. apply elem_of_app. right.
      destruct driver as [[] ? ? ? ?]. simpl. by apply list_elem_of_singleton.
Qed.

Lemma set_sum_grew ds (z : Z) : grew_from ds (set_last_modify_time_sum ds z).
Proof.
  split; [done|]. split; [exists []; by rewrite app_nil_r|]. by split.
Qed.

Lemma scan_files_spec env fs (files : list string) ds :
  let ds' := fst (scan_files env fs files ds) in
  grew_from ds ds'
  ∧ (∀ f, f ∈ regular_files fs files → f ∈ recorded_files ds')
  ∧ last_modify_time_sum_ ds'
    = fold_left int64_add (List.map (mtime_of fs) (regular_files fs files))
        (last_modify_time_sum_ ds).
Proof.
  cbv zeta. revert ds. induction files as [|file files IH]; intros ds; simpl.
  { split; [apply grew_from_refl|]. split; [|done].
    intros f Hf. by apply elem_of_nil in Hf. }
  destruct (fs_lstat fs file) as [buf|] eqn:Hstat; [|apply IH].
  destruct (S_ISLNK buf); simpl; [apply IH|].
  replace (mtime_of fs file) with (st_mtim buf) by (unfold mtime_of; by rewrite Hstat).
  set (ds0 := set_last_modify_time_sum ds
                (int64_add (last_modify_time_sum_ ds) (st_mtim buf))).
  pose proof (Add_recorded env file ds0) as (Hgrew & Hrec & Hsum). cbv zeta in *.
  destruct (Add env file ds0) as [[status ds1] evs]. simpl in *.
  specialize (IH (record_scan_result file status ds1)).
  destruct (scan_files env fs files (record_scan_result file status ds1))
    as [ds' evs']. simpl in *.
  destruct IH as (Hgrew' & Hrec' & Hsum').
  split; [|split].
  - eapply grew_from_trans; [apply (set_sum_grew ds)|].
    eapply grew_from_trans; [exact Hgrew|exact Hgrew'].
  - intros f [->|Hf]%elem_of_cons; [|by apply Hrec'].
    destruct Hgrew' as (_ & _ & _ & Hkeep). by apply Hkeep.
  - by rewrite Hsum', Hsum.
Qed.

(** An entry of [driver_dirs_] that can be inspected and, when it is a
    directory, listed. *)
Lemma Scan_path_spec env fs (errno dir : string) ds :
  let ds' := snd (fst (Scan_path env fs errno dir driver_filter ds)) in
  grew_from ds ds'
  ∧ ((∃ s, fs_lstat fs dir = Some s
           ∧ (S_ISDIR s = true →
              Code (fst (fs_ListFiles fs dir driver_filter)) = STATUS_OK)) →
     (∀ f, f ∈ files_in_dir fs dir → f ∈ recorded_files ds')
     ∧ last_modify_time_sum_ ds'
       = fold_left int64_add (mtimes_of_dir fs dir) (last_modify_time_sum_ ds)).
Proof.
  cbv zeta. unfold Scan_path, files_in_dir, mtimes_of_dir.
  destruct (fs_lstat fs dir) as [s|] eqn:Hstat.
  2:{ split; [apply grew_from_refl|]. by intros (? & [=] & _). }
  destruct (S_ISDIR s) eqn:Hdir; simpl.
  - unfold files_in_dir. rewrite Hstat, Hdir.
    destruct (fs_ListFiles fs dir driver_filter) as [status files]. simpl.
    unfold status_is. case_bool_decide as Hok; simpl.
    2:{ split; [apply grew_from_refl|].
        intros (s1 & [= <-] & Hs1). by destruct Hok; apply Hs1. }
    destruct files as [|file files]; simpl length; cbn [Nat.eqb].
    { split; [apply grew_from_refl|]. intros _. split; [|done].
      intros f Hf. by apply elem_of_nil in Hf. }
    pose proof (scan_files_spec env fs (file :: files) ds) as (Hg & Hr & Hs).
    cbv zeta in *.
    destruct (scan_files env fs (file :: files) ds) as [ds' evs]. simpl in *.
    split; [done|]. intros _. by split.
  - set (ds0 := set_last_modify_time_sum ds
                  (int64_add (last_modify_time_sum_ ds) (st_mtim s))).
    pose proof (Add_recorded env dir ds0) as (Hgrew & Hrec & Hsum). cbv zeta in *.
    destruct (Add env dir ds0) as [[status ds1] evs]. simpl in *.
    split.
    + eapply grew_from_trans; [apply (set_sum_grew ds)|exact Hgrew].
    + intros _. split; [|done]. intros f Hf. by apply elem_of_nil in Hf.
Qed.

Lemma scan_dirs_spec env fs (errno : string) (dirs : list string) ds :
  let ds' := fst (scan_dirs env fs errno dirs ds) in
  grew_from ds ds'
  ∧ (dirs_readable fs dirs →
     (∀ f, f ∈ flat_map (files_in_dir fs) dirs → f ∈ recorded_files ds')
     ∧ last_modify_time_sum_ ds'
       = fold_left int64_add (flat_map (mtimes_of_dir fs) dirs)
           (last_modify_time_sum_ ds)).
Proof.
  cbv zeta. unfold dirs_readable. revert ds.
  induction dirs as [|dir dirs IH]; intros ds; simpl.
  { split; [apply grew_from_refl|]. intros _. split; [|done].
    intros f Hf. by apply elem_of_nil in Hf. }
  pose proof (Scan_path_spec env fs errno dir ds) as (Hg & Hdir). cbv zeta in *.
  destruct (Scan_path env fs errno dir driver_filter ds) as [[status ds1] evs].
  simpl in *. specialize (IH ds1).
  destruct (scan_dirs env fs errno dirs ds1) as [ds' evs']. simpl in *.
  destruct IH as (Hg' & Hdirs).
  split; [by eapply grew_from_trans|].
  intros [Hrd Hrds]%Forall_cons.
  destruct (Hdir Hrd) as (Hrec & Hsum). destruct (Hdirs Hrds) as (Hrec' & Hsum').
  split.
  - intros f [Hf|Hf]%elem_of_app; [|by apply Hrec'].
    destruct Hg' as (_ & _ & _ & Hkeep). by apply Hkeep, Hrec.
  - by rewrite fold_left_app, Hsum', Hsum.
Qed.

(** X11. A scan only adds. Whatever the directories hold, [InnerScan]
    keeps [driver_dirs_], keeps every driver in place and appends the new
    ones, keeps the registry free of drivers with equal (class, type,
    name, version, description) tuples, and forgets no file it had on
    record. *)
Theorem InnerScan_only_appends env fs (errno : string) (GenerateKey : Z → string) ds :
  let ds' := snd (fst (fst (InnerScan env fs errno GenerateKey ds))) in
  driver_dirs_ ds' = driver_dirs_ ds
  ∧ (∃ new, drivers_list_ ds' = drivers_list_ ds ++ new)
  ∧ (NoDup (List.map identity_tuple (drivers_list_ ds)) →
     NoDup (List.map identity_tuple (drivers_list_ ds')))
  ∧ (∀ f, f ∈ recorded_files ds → f ∈ recorded_files ds').
Proof.
  cbv zeta. unfold InnerScan.
  pose proof (scan_dirs_spec env fs errno (driver_dirs_ ds) ds) as [Hg _].
  cbv zeta in Hg.
  destruct (scan_dirs env fs errno (driver_dirs_ ds) ds) as [ds' evs]. simpl in Hg.
  destruct (WriteScanInfo fs DEFAULT_SCAN_INFO
              (GenerateKey (last_modify_time_sum_ ds')) ds') as [ret fs'].
  by destruct (negb (status_is ret STATUS_OK)).
Qed.

(** X12. A directory that holds only symbolic links (or entries that
    cannot be inspected) is scanned without error and without effect:
    [Scan] returns success, registers nothing, records nothing and calls
    the loader for no file. An empty listing is reported as not found. *)
Theorem Scan_path_skips_links env fs (errno path filter : string) ds s status files :
  fs_lstat fs path = Some s → S_ISDIR s = true →
  fs_ListFiles fs path filter = (status, files) → Code status = STATUS_OK →
  Forall (λ f, match fs_lstat fs f with
               | Some buf => S_ISLNK buf = true
               | None => True
               end) files →
  Scan_path env fs errno path filter ds
  = (if (length files =? 0)%nat then mkStatus STATUS_NOTFOUND "directory is empty"
     else StatusOf STATUS_OK, ds, []).
Proof.
  intros Hstat Hdir Hlist Hok Hlinks. unfold Scan_path.
  rewrite Hstat, Hdir, Hlist. simpl. unfold status_is.
  rewrite bool_decide_eq_true_2 by done. simpl.
  assert (Hskip : scan_files env fs files ds = (ds, [])).
  { clear Hlist. induction Hlinks as [|f rest Hf Hrest IH]; [done|]. simpl.
    destruct (fs_lstat fs f) as [buf|]; [rewrite Hf|]; exact IH. }
  destruct files as [|file files]; [done|]. simpl length. cbn [Nat.eqb].
  by rewrite Hskip.
Qed.

Lemma Scan_path_skips_links_witness :
  Scan_path (foo_loader None false)
    (mkFS (fun _ => None)
       (fun p => if String.eqb p drv_dir then Some (mkStat S_IFDIR 70)
                 else Some (mkStat S_IFLNK 30))
       (fun _ _ => (StatusOf STATUS_OK, [lib_a; lib_b]))
       (fun _ => None) (fun _ => true) "")
    "" drv_dir driver_filter Drivers_new
  = (StatusOf STATUS_OK, Drivers_new, []).
Proof.
  apply (Scan_path_skips_links (foo_loader None false) _ "" drv_dir driver_filter
           Drivers_new (mkStat S_IFDIR 70) (StatusOf STATUS_OK) [lib_a; lib_b]);
    try reflexivity.
  by repeat constructor.
Defined.


#[local] Set Warnings "-clear-no-such-hyp".
#[local] Set Warnings "clear-no-such-hyp".









(** *** Reading the cache *)

Lemma SetVersion_other_fields (desc : DriverDesc) (v : string) :
  let desc' := snd (SetVersion desc v) in
  driver_class_ desc' = driver_class_ desc
  ∧ driver_type_ desc' = driver_type_ desc
  ∧ driver_name_ desc' = driver_name_ desc
  ∧ driver_description_ desc' = driver_description_ desc
  ∧ driver_file_path_ desc' = driver_file_path_ desc
  ∧ driver_no_delete_ desc' = driver_no_delete_ desc
  ∧ global_ desc' = global_ desc
  ∧ deep_bind_ desc' = deep_bind_ desc.
Proof.
  cbv zeta. unfold SetVersion. destruct v; [done|].
  by destruct (negb (status_is (CheckVersion (String a v)) STATUS_SUCCESS)).
Qed.

(** An entry of the cache either is passed over by every registry, or
    names a driver that is appended unless [GetDriver] finds one. *)
Lemma gather_driver_shape (e : json) ds ds' :
  gather_driver e ds = Some ds' →
  (∀ ds2, gather_driver e ds2 = Some ds2)
  ∨ ∃ c t n v d,
      name_triple d = (c, t, n)
      ∧ ∀ ds2, gather_driver e ds2
               = Some (match GetDriver ds2 c t n v with
                       | None => set_drivers_list ds2 (drivers_list_ ds2 ++ [d])
                       | Some _ => ds2
                       end).
Proof.
  unfold gather_driver.
  destruct (json_at "load_success" e ≫= get_bool) as [[]|]; simpl;
    [|by left|done].
  destruct (json_at "class" e ≫= get_string) as [c|]; simpl; [|done].
  destruct (json_at "type" e ≫= get_string) as [t|]; simpl; [|done].
  destruct (json_at "name" e ≫= get_string) as [n|]; simpl; [|done].
  destruct (json_at "description" e ≫= get_string) as [descr|]; simpl; [|done].
  destruct (json_at "version" e ≫= get_string) as [v|]; simpl; [|done].
  destruct (json_at "file_path" e ≫= get_string) as [file|]; simpl; [|done].
  destruct (json_at "no_delete" e ≫= get_bool) as [nd|]; simpl; [|done].
  destruct (json_at "global" e ≫= get_bool) as [g|]; simpl; [|done].
  destruct (json_at "deep_bind" e ≫= get_bool) as [db|]; simpl; [|done].
  intros _. right. eexists c, t, n, v, _. split.
  2:{ intros ds2. destruct (GetDriver ds2 c t n v); reflexivity. }
  unfold name_triple, SetVersion. destruct v as [|a v]; [reflexivity|].
  by destruct (negb (status_is (CheckVersion (String a v)) STATUS_SUCCESS)).
Qed.

Lemma GetDriver_loop_Some (l : list Driver) (c t n v : string)
    (temp : option Driver) (r : Driver) :
  GetDriver_loop l c t n v temp = Some r →
  temp = Some r ∨ (r ∈ l ∧ identity_is c t n r).
Proof.
  revert temp. induction l as [|x l IH]; intros temp; simpl; [by left|].
  destruct (same_identity (desc_ x) c t n) eqn:Hx; simpl.
  - apply same_identity_spec in Hx.
    destruct (String.eqb _ v).
    { intros [= <-]. right. split; [apply elem_of_cons; by left|done]. }
    assert (Hstep : ∀ temp', (temp' = temp ∨ temp' = Some x) →
              GetDriver_loop l c t n v temp' = Some r →
              temp = Some r ∨ r ∈ x :: l ∧ identity_is c t n r).
    { intros temp' Htemp [->|[Hr Hid]]%IH.
      - destruct Htemp as [<-|[= <-]]; [by left|].
        right. split; [apply elem_of_cons; by left|done].
      - right. split; [apply elem_of_cons; by right|done]. }
    destruct temp as [cur|]; [destruct (String.ltb _ _)|]; apply Hstep; auto.
  - intros [->|[Hr Hid]]%IH; [by left|].
    right. split; [apply elem_of_cons; by right|done].
Qed.

Lemma GetDriver_found_iff ds (c t n v : string) :
  is_Some (GetDriver ds c t n v) ↔ ∃ d, d ∈ drivers_list_ ds ∧ identity_is c t n d.
Proof.
  split.
  - intros [r Hr]. unfold GetDriver in Hr.
    apply GetDriver_loop_Some in Hr as [[=]|[Hin Hid]]. eauto.
  - intros (d & Hd & Hid).
    destruct (GetDriver ds c t n v) eqn:Hget; [eauto|].
    pose proof (proj1 (GetDriver_None_iff ds c t n v) Hget) as Hno.
    by destruct (Hno d Hd).
Qed.

Lemma gather_loop_grows (arr : list json) ds ds' :
  gather_loop arr ds = Some ds' →
  (∃ new, drivers_list_ ds' = drivers_list_ ds ++ new)
  ∧ (NoDup (List.map name_triple (drivers_list_ ds)) →
     NoDup (List.map name_triple (drivers_list_ ds')))
  ∧ driver_dirs_ ds' = driver_dirs_ ds.
Proof.
  revert ds. induction arr as [|e arr IH]; intros ds; simpl.
  { intros [= <-]. split; [exists []; by rewrite app_nil_r|done]. }
  destruct (gather_driver e ds) as [ds1|] eqn:He; [|done]. simpl. intros Hloop.
  destruct (IH _ Hloop) as ([new Hnew] & Hnodup & Hdirs).
  destruct (gather_driver_shape _ _ _ He) as [Hid|(c & t & n & v & d & Hd & Hshape)].
  { rewrite Hid in He. injection He as <-. eauto. }
  rewrite Hshape in He. injection He as <-.
  destruct (GetDriver ds c t n v) eqn:Hget; [eauto|].
  simpl in *. split; [exists ([d] ++ new); by rewrite Hnew, app_assoc|].
  split; [|done]. intros Hnd. apply Hnodup.
  rewrite map_app. simpl. apply NoDup_app. split; [done|].
  split; [|apply NoDup_singleton].
  intros tr Htr ->%list_elem_of_singleton.
  apply list_elem_of_In, in_map_iff in Htr as (x & Hx & Hin).
  pose proof (proj1 (GetDriver_None_iff ds c t n v) Hget) as Hno.
  apply (Hno x); [by apply list_elem_of_In|].
  unfold name_triple, identity_is in *. by simplify_eq.
Qed.

Lemma gather_loop_settled (arr : list json) ds ds' :
  gather_loop arr ds = Some ds' →
  ∀ ds2, (∀ x, x ∈ drivers_list_ ds' → x ∈ drivers_list_ ds2) →
         gather_loop arr ds2 = Some ds2.
Proof.
  revert ds. induction arr as [|e arr IH]; intros ds; simpl; [done|].
  destruct (gather_driver e ds) as [ds1|] eqn:He; [|done]. simpl.
  intros Hloop ds2 Hsub.
  destruct (gather_loop_grows _ _ _ Hloop) as ([new Hnew] & _).
  assert (Hsub1 : ∀ x, x ∈ drivers_list_ ds1 → x ∈ drivers_list_ ds2).
  { intros x Hx. apply Hsub. rewrite Hnew. apply elem_of_app. by left. }
  assert (Hpass : gather_driver e ds2 = Some ds2).
  { destruct (gather_driver_shape _ _ _ He) as [Hid|(c & t & n & v & d & Hd & Hshape)];
      [done|].
    rewrite Hshape in He |- *. injection He as <-.
    assert (Hfound : is_Some (GetDriver ds2 c t n v)).
    { apply GetDriver_found_iff.
      destruct (GetDriver ds c t n v) as [r|] eqn:Hget.
      - assert (is_Some (GetDriver ds c t n v)) as Hs by (rewrite Hget; eauto).
        apply GetDriver_found_iff in Hs as (x & Hx & Hid). eauto.
      - exists d. split.
        + apply Hsub1. simpl. apply elem_of_app. right. by apply list_elem_of_singleton.
        + unfold name_triple, identity_is in *. by simplify_eq. }
    by destruct Hfound as [r ->]. }
  rewrite Hpass. simpl. by eapply IH.
Qed.

(** X16. Reading a cache only adds, and keeps names apart. Whatever the
    document holds, if [GatherScanInfo] returns at all the drivers that
    were registered are still there, in place, followed by the new ones,
    and if no two drivers shared (class, type, name) before, none do
    afterwards. *)
Theorem GatherScanInfo_keeps_names_distinct fs (scan_path : string) ds
    (status : Status) ds' :
  GatherScanInfo fs scan_path ds = Some (status, ds') →
  (∃ new, drivers_list_ ds' = drivers_list_ ds ++ new)
  ∧ (NoDup (List.map name_triple (drivers_list_ ds)) →
     NoDup (List.map name_triple (drivers_list_ ds')))
  ∧ driver_dirs_ ds' = driver_dirs_ ds.
Proof.
  unfold GatherScanInfo.
  destruct (fs_read fs scan_path) as [doc|].
  2:{ intros [= _ <-]. split; [exists []; by rewrite app_nil_r|done]. }
  destruct (json_at "scan_drivers" doc) as [arr|]; simpl; [|done].
  destruct (gather_loop (json_items arr) ds) as [ds1|] eqn:Hloop; simpl; [|done].
  intros [= _ <-]. by apply gather_loop_grows in Hloop.
Qed.

Lemma GatherScanInfo_keeps_names_distinct_witness :
  ∃ ds',
    GatherScanInfo later_fs DEFAULT_SCAN_INFO Drivers_new
      = Some (StatusOf STATUS_OK, ds')
    ∧ NoDup (List.map name_triple (drivers_list_ ds')).
Proof.
  eexists. split; [reflexivity|].
  eapply (GatherScanInfo_keeps_names_distinct later_fs DEFAULT_SCAN_INFO Drivers_new);
    [reflexivity|constructor].
Defined.

(** X17. Reading a cache twice is reading it once: after a
    [GatherScanInfo] that returned, a second one on the same file changes
    nothing and returns the same status. No entry is registered twice. *)
Theorem GatherScanInfo_idempotent fs (scan_path : string) ds (status : Status) ds' :
  GatherScanInfo fs scan_path ds = Some (status, ds') →
  GatherScanInfo fs scan_path ds' = Some (status, ds').
Proof.
  unfold GatherScanInfo.
  destruct (fs_read fs scan_path) as [doc|]; [|by intros [= <- <-]].
  destruct (json_at "scan_drivers" doc) as [arr|]; simpl; [|done].
  destruct (gather_loop (json_items arr) ds) as [ds1|] eqn:Hloop; simpl; [|done].
  intros [= <- <-]. by rewrite (gather_loop_settled _ _ _ Hloop ds1).
Qed.

Lemma GatherScanInfo_idempotent_witness :
  ∃ ds',
    GatherScanInfo later_fs DEFAULT_SCAN_INFO Drivers_new
      = Some (StatusOf STATUS_OK, ds')
    ∧ GatherScanInfo later_fs DEFAULT_SCAN_INFO ds' = Some (StatusOf STATUS_OK, ds').
Proof.
  eexists. split; [reflexivity|].
  apply (GatherScanInfo_idempotent later_fs DEFAULT_SCAN_INFO Drivers_new).
  reflexivity.
Defined.


End Registry.

(** ** More on the query surface and the descriptor *)

Section Queries.

Lemma RemoveSameElements_Permutation (l l' : list string) :
  l ≡ₚ l' → RemoveSameElements l = RemoveSameElements l'.
Proof.
  intros Hperm. unfold RemoveSameElements. f_equal.
  apply sort_is_the_sorted_permutation.
  - unfold sort. by rewrite merge_sort_Permutation.
  - unfold sort. apply Sorted_merge_sort, _.
Qed.

Lemma unique_strictly_sorted_id (l : list string) :
  StronglySorted string_lt l → unique l = l.
Proof.
  induction 1 as [|a l Hl IH Ha]; [done|].
  cbn [unique]. destruct l as [|b l']; [done|].
  destruct (String.eqb_spec a b) as [->|_]; [|by rewrite IH].
  apply Forall_cons in Ha as [Hbb _]. by apply string_lt_irrefl in Hbb.
Qed.

Lemma strictly_sorted_Sorted (l : list string) :
  StronglySorted string_lt l → Sorted string_le l.
Proof.
  induction 1 as [|a l Hl IH Ha]; constructor; [done|].
  destruct l as [|b l']; constructor.
  apply Forall_cons in Ha as [Hab _]. by apply string_lt_le.
Qed.

Lemma filter_Permutation_std {A} (P : A → bool) (l l' : list A) :
  l ≡ₚ l' → List.filter P l ≡ₚ List.filter P l'.
Proof.
  induction 1 as [|x l l' Hperm IH|x y l|l l' l'' _ IH1 _ IH2]; simpl.
  - done.
  - destruct (P x); by rewrite IH.
  - destruct (P x), (P y); try done. apply perm_swap.
  - by rewrite IH1.
Qed.

Lemma map_Permutation_std {A B} (f : A → B) (l l' : list A) :
  l ≡ₚ l' → List.map f l ≡ₚ List.map f l'.
Proof.
  induction 1 as [|x l l' Hperm IH|x y l|l l' l'' _ IH1 _ IH2]; simpl.
  - done.
  - by rewrite IH.
  - apply perm_swap.
  - by rewrite IH1.
Qed.

(** X18. The class, type and name lists do not depend on the order in
    which the drivers were registered: two registries holding the same
    drivers in any order answer alike. Removing duplicates from a list
    that went through [RemoveSameElements] changes nothing. *)
Theorem driver_lists_independent_of_order (ds ds' : Drivers) :
  drivers_list_ ds ≡ₚ drivers_list_ ds' →
  GetDriverClassList ds = GetDriverClassList ds'
  ∧ (∀ driver_class, GetDriverTypeList ds driver_class
                     = GetDriverTypeList ds' driver_class)
  ∧ (∀ driver_class driver_type,
       GetDriverNameList ds driver_class driver_type
       = GetDriverNameList ds' driver_class driver_type)
  ∧ (∀ l, RemoveSameElements (RemoveSameElements l) = RemoveSameElements l).
Proof.
  intros Hperm. unfold GetDriverClassList, GetDriverTypeList, GetDriverNameList.
  split; [|split; [|split]].
  - by apply RemoveSameElements_Permutation, map_Permutation_std.
  - intros c. by apply RemoveSameElements_Permutation, map_Permutation_std,
      filter_Permutation_std.
  - intros c t. by apply RemoveSameElements_Permutation, map_Permutation_std,
      filter_Permutation_std.
  - intros l. pose proof (RemoveSameElements_sorted l) as Hsorted.
    unfold RemoveSameElements at 1.
    rewrite <- (sort_is_the_sorted_permutation (RemoveSameElements l)
                  (RemoveSameElements l)); [|done|by apply strictly_sorted_Sorted].
    by apply unique_strictly_sorted_id.
Qed.

Lemma driver_lists_independent_of_order_witness :
  GetDriverClassList unordered_classes
  = GetDriverClassList
      (set_drivers_list Drivers_new (reverse (drivers_list_ unordered_classes))).
Proof.
  apply (driver_lists_independent_of_order unordered_classes
           (set_drivers_list Drivers_new (reverse (drivers_list_ unordered_classes)))).
  simpl. by rewrite reverse_Permutation.
Defined.

(** X19. [SetVersion] either stores the version or changes nothing. It
    succeeds exactly on the empty string and on the strings whose
    [getline] tokens are three, each empty or all digits; on success with a
    non-empty string only the version field changes; on failure the status
    is [STATUS_BADCONF] and the descriptor is untouched. *)
Theorem SetVersion_effect (desc : DriverDesc) (version : string) :
  let status := fst (SetVersion desc version) in
  let desc' := snd (SetVersion desc version) in
  (Code status = STATUS_SUCCESS ↔
   version = ""
   ∨ ∃ x y z,
       drop_empty_last (split_on split_char version) = [x; y; z]
       ∧ all_of_isdigit x = true ∧ all_of_isdigit y = true
       ∧ all_of_isdigit z = true)
  ∧ (Code status = STATUS_SUCCESS →
     desc' = if String.eqb version "" then desc else set_version_field desc version)
  ∧ (Code status ≠ STATUS_SUCCESS → status = version_invalid ∧ desc' = desc).
Proof.
  cbv zeta. unfold SetVersion. destruct version as [|a v]; simpl.
  { split; [split; [by left|done]|]. split; done. }
  pose proof (CheckVersion_accepts_iff (String a v)) as Hiff.
  unfold status_is. case_bool_decide as Hok; simpl.
  - split; [|split; [done|done]].
    split; [intros _; right; by apply Hiff|done].
  - split; [|split; [done|]].
    + split; [done|]. intros [[=]|H]. by apply Hiff in H.
    + intros _. split; [|done].
      unfold CheckVersion in *.
      destruct (negb (find_char split_char (String a v))); [done|].
      destruct (negb (length _ =? 3)%nat); [done|].
      by destruct (forallb all_of_isdigit _).
Qed.

End Queries.

(** ** The MindSpore inference flow unit *)

Section MindSpore.

Lemma check_tensors_ok_iff (tensor_list : list MSTensor) (name_list type_list : list string) :
  length tensor_list = length name_list →
  length tensor_list = length type_list →
  Code (check_tensors tensor_list name_list type_list) = STATUS_OK ↔
  List.map Name tensor_list = name_list
  ∧ List.map (λ t, data_type_map (TensorType t)) tensor_list = type_list.
Proof.
  revert name_list type_list.
  induction tensor_list as [|t ts IH]; intros [|n ns] [|ty tys]; simpl; try done.
  intros [= Hn] [= Hty].
  destruct (String.eqb_spec (Name t) n) as [->|Hne]; simpl.
  2:{ split; [done|]. intros [[= ? _] _]. done. }
  destruct (String.eqb_spec (data_type_map (TensorType t)) ty) as [->|Hne]; simpl.
  2:{ split; [done|]. intros [_ [= ? _]]. done. }
  rewrite (IH ns tys Hn Hty). split.
  - intros [-> ->]. done.
  - intros [[= ->] [= ->]]. done.
Qed.

Lemma CheckMindSporeInfo_accepts (tensor_list : list MSTensor)
    (name_list type_list : list string) :
  Code (CheckMindSporeInfo tensor_list name_list type_list) = STATUS_OK ↔
  List.map Name tensor_list = name_list
  ∧ List.map (λ t, data_type_map (TensorType t)) tensor_list = type_list.
Proof.
  unfold CheckMindSporeInfo.
  destruct (Nat.eqb_spec (length tensor_list) (length name_list)) as [Hn|Hn]; simpl.
  2:{ split; [done|]. intros [<- _]. by rewrite length_map in Hn. }
  destruct (Nat.eqb_spec (length tensor_list) (length type_list)) as [Hty|Hty]; simpl.
  2:{ split; [done|]. intros [_ <-]. by rewrite length_map in Hty. }
  by apply check_tensors_ok_iff.
Qed.

Lemma CheckMindSporeInfo_rejects (tensor_list : list MSTensor)
    (name_list type_list : list string) :
  Code (CheckMindSporeInfo tensor_list name_list type_list) ≠ STATUS_OK →
  Code (CheckMindSporeInfo tensor_list name_list type_list) = STATUS_BADCONF.
Proof.
  unfold CheckMindSporeInfo.
  destruct (negb _ || negb _); [done|].
  generalize name_list type_list.
  induction tensor_list as [|t ts IH]; intros [|n ns] [|ty tys]; simpl; try done.
  destruct (negb (String.eqb (Name t) n)); [done|].
  destruct (negb (String.eqb (data_type_map (TensorType t)) ty)); [done|].
  apply IH.
Qed.

(** X20. [CheckMindSporeInfo] accepts exactly when the tensors and the
    configured names and types agree one by one: as many names and types
    as tensors, each tensor's name the configured name, and each tensor's
    data type, written as the table spells it, the configured type. Every
    rejection is [STATUS_BADCONF]. A data type the table does not hold is
    spelled as the empty string, so a tensor of such a type passes against
    an empty configured type and against nothing else. *)
Theorem CheckMindSporeInfo_ok_iff (tensor_list : list MSTensor)
    (name_list type_list : list string) :
  (Code (CheckMindSporeInfo tensor_list name_list type_list) = STATUS_OK ↔
   List.map Name tensor_list = name_list
   ∧ List.map (λ t, data_type_map (TensorType t)) tensor_list = type_list)
  ∧ (Code (CheckMindSporeInfo tensor_list name_list type_list) ≠ STATUS_OK →
     Code (CheckMindSporeInfo tensor_list name_list type_list) = STATUS_BADCONF)
  ∧ (∀ name type,
       Code (CheckMindSporeInfo [mkTensor name kTypeOther] [name] [type]) = STATUS_OK
       ↔ type = "").
Proof.
  split; [apply CheckMindSporeInfo_accepts|].
  split; [apply CheckMindSporeInfo_rejects|].
  intros name type. rewrite CheckMindSporeInfo_accepts. simpl. split.
  - by intros [_ [= <-]].
  - by intros ->.
Qed.

(** X21. [CheckMindSporeIO] accepts exactly when both the inputs and the
    outputs pass [CheckMindSporeInfo]. The inputs are checked first: when
    they do not match, the outputs are not looked at and the message is the
    one of the inputs. Every rejection is [STATUS_BADCONF]. *)
Theorem CheckMindSporeIO_ok_iff (WrapErrormsgs : Status → string)
    (input_tensor output_tensor : list MSTensor)
    (input_name_list output_name_list input_type_list output_type_list : list string) :
  let status :=
    CheckMindSporeIO WrapErrormsgs input_tensor output_tensor
      input_name_list output_name_list input_type_list output_type_list in
  let inputs_match :=
    List.map Name input_tensor = input_name_list
    ∧ List.map (λ t, data_type_map (TensorType t)) input_tensor = input_type_list in
  let outputs_match :=
    List.map Name output_tensor = output_name_list
    ∧ List.map (λ t, data_type_map (TensorType t)) output_tensor = output_type_list in
  (Code status = STATUS_OK ↔ inputs_match ∧ outputs_match)
  ∧ (Code status ≠ STATUS_OK → Code status = STATUS_BADCONF)
  ∧ (¬ inputs_match →
     status = mkStatus STATUS_BADCONF
                ("check ms input failed "
                 ++ WrapErrormsgs
                      (CheckMindSporeInfo input_tensor input_name_list input_type_list))).
Proof.
  cbv zeta. unfold CheckMindSporeIO, status_is.
  rewrite <- !CheckMindSporeInfo_accepts.
  case_bool_decide as Hin; simpl.
  - case_bool_decide as Hout; simpl.
    + split; [done|]. split; done.
    + split; [|split; done]. split; [done|]. by intros [_ ?].
  - split; [|split; done]. split; [done|]. by intros [? _].
Qed.

End MindSpore.
